(** * Adaptive scalar Kalman filter: the notebook's estimators

    Shallow embedding of [adaptive_kalman_filter_scalar_tiny_plot.ipynb].

    Numbers.  The notebook computes on Python and numpy floating-point
    numbers.  The main embedding computes on exact rationals ([Q], compared
    with [==]): a statement about it is a statement of exact arithmetic and
    says nothing about rounding or overflow.  A division whose divisor is
    zero has no rational value: Python raises [ZeroDivisionError] on its own
    numbers and numpy yields [inf] or [nan]; the embedding returns [None]
    there and the loop stops with the namespace as it was ([Stopped]).
    Where rounding or overflow decides a property (the sign of the variance,
    the bound on the gain), the state estimator is embedded a second time
    on binary64 numbers, in the module [Binary64].

    Globals.  The two functions of the notebook read module-level names
    ([F], [H], [Q], [Mopi], [CW], [S], [k], [R_est], [ynew]).  The constants
    live in the record [Sys.model]; the names that change between calls are
    passed as leading arguments.

    Measurements.  The simulated plant ([x], [w], [v], lines 156, 157 and
    164) is the measurement source: the loop is modelled from the point
    where [ynew] is known, one measurement per iteration.  Printing and
    plotting are not modelled. *)

From Stdlib Require Import QArith Qabs Qfield Lqa Lia List Bool ZArith.
From Stdlib Require Import Floats.
Import ListNotations.

Local Open Scope Q_scope.

(** ** Arithmetic and failure *)

(** [a / b] of the notebook in exact arithmetic: no value when [b] is zero.
    What the code does at a zero divisor depends on the operands (Python
    numbers raise, numpy scalars yield [inf] or [nan] and go on); [None]
    marks the point past which the rationals no longer follow it. *)
Definition pydiv (a b : Q) : option Q :=
  if Qeq_bool b 0 then None else Some (a / b).

(** [a > b] on numbers. *)
Definition Qgt_bool (a b : Q) : bool := negb (Qle_bool a b).

Notation "x <- e ;; k" :=
  (match e with Some x => k | None => None end)
  (at level 61, e at next level, right associativity, only parsing).

(** ** The system constants (cells 1 and 2) *)

Module Sys.

(** [F, H, Q] of line 48 and the quantities of lines 76-83.  The field [Q]
    comes last so that the earlier field types still read the rationals. *)
Record model : Type := Model {
  F : Q;
  H : Q;
  Mopi : Q;
  A1 : Q;
  B1 : Q;
  B2 : Q;
  kronA : Q;
  kronB : Q;
  S : Q;
  CW : Q;
  Q : Q
}.

End Sys.

(** Lines 76-83: [Mopi = 1/H] is the only step that can fail.
    [np.copy(kronB)] is the same number. *)
Definition precompute (F H Qw : Q) : option Sys.model :=
  Mopi <- pydiv 1 H ;;
  let A1 := 1 in
  let B1 := - F * Mopi in
  let B2 := Mopi in
  let kronA := A1 ^ 2 in
  let kronB := B1 ^ 2 + B2 ^ 2 in
  let S := kronB in
  let CW := kronA * Qw in
  Some (Sys.Model F H Mopi A1 B1 B2 kronA kronB S CW Qw).

(** ** The two estimators (lines 108-111 and 124-131) *)

(** Line 109, the scaled innovation [Z]. *)
Definition innovation (m : Sys.model) (y_new y_old : Q) : Q :=
  Sys.Mopi m * (y_new - Sys.F m * y_old).

(** Lines 108-111.  [k] is the global loop counter, a Python integer.
    Returns the pair [((L-CW)/S, L)]. *)
Definition noise_covariance_estimation (m : Sys.model) (k : Z)
    (y_new y_old L : Q) : option (Q * Q) :=
  let Z := innovation m y_new y_old in
  a <- pydiv (L * inject_Z (k - 1)) (inject_Z k) ;;
  b <- pydiv (Z * Z) (inject_Z k) ;;
  let L := a + b in
  c <- pydiv (L - Sys.CW m) (Sys.S m) ;;
  Some (c, L).

(** Line 126. *)
Definition predicted_variance (m : Sys.model) (P_post : Q) : Q :=
  Sys.F m * P_post * Sys.F m + Sys.Q m.

(** Line 127. *)
Definition kalman_gain (m : Sys.model) (R_est P_pre : Q) : option Q :=
  pydiv (P_pre * Sys.H m) (Sys.H m * P_pre * Sys.H m + R_est).

(** Lines 129-130, the Joseph form. *)
Definition covariance_update (m : Sys.model) (R_est K P_pre : Q) : Q :=
  let IKH := 1 - K * Sys.H m in
  IKH * P_pre * IKH + K * R_est * K.

(** Lines 124-131.  [R_est] and [ynew] are globals of the notebook. *)
Definition state_estimation (m : Sys.model) (R_est ynew : Q)
    (x_post P_post : Q) : option (Q * Q) :=
  let x_pre := Sys.F m * x_post in
  let P_pre := predicted_variance m P_post in
  K <- kalman_gain m R_est P_pre ;;
  let x_post := x_pre + K * (ynew - Sys.H m * x_pre) in
  let P_post := covariance_update m R_est K P_pre in
  Some (x_post, P_post).

(** ** The namespace the loop mutates *)

Record state : Type := State {
  yold : option Q;          (* unbound before the first iteration ends *)
  x_post : Q;
  P_post : Q;
  R_est : Q;
  L : Q;
  R_est_history : list Q    (* [np.zeros(T)], written by index *)
}.

Definition set_yold (v : Q) (s : state) : state :=
  State (Some v) (x_post s) (P_post s) (R_est s) (L s) (R_est_history s).
Definition set_estimate (x P : Q) (s : state) : state :=
  State (yold s) x P (R_est s) (L s) (R_est_history s).
Definition set_R_est (v : Q) (s : state) : state :=
  State (yold s) (x_post s) (P_post s) v (L s) (R_est_history s).
Definition set_L (v : Q) (s : state) : state :=
  State (yold s) (x_post s) (P_post s) (R_est s) v (R_est_history s).
Definition set_history (h : list Q) (s : state) : state :=
  State (yold s) (x_post s) (P_post s) (R_est s) (L s) h.

(** [a[k] = v] on an array: an index past the end raises. *)
Fixpoint setitem (a : list Q) (k : nat) (v : Q) : option (list Q) :=
  match a, k with
  | [], _ => None
  | _ :: t, O => Some (v :: t)
  | h :: t, Datatypes.S k' =>
      match setitem t k' v with Some t' => Some (h :: t') | None => None end
  end.

(** How a piece of the loop ends: normally, or stopped by an exception
    (or a non-finite number) with the namespace as it was at that point.
    The test and the [print] of lines 166-167 are not part of it. *)
Inductive result : Type :=
  | Normal (s : state)
  | Stopped (s : state).

Definition final (r : result) : state :=
  match r with Normal s | Stopped s => s end.

Definition completed (r : result) : bool :=
  match r with Normal _ => true | Stopped _ => false end.

Definition andthen (r : result) (f : state -> result) : result :=
  match r with Normal s => f s | Stopped s => Stopped s end.

(** ** The loop (lines 155-165) *)

(** Lines 158-161.  [R_est_new] is only read on line 160 and 161. *)
Definition noise_update (m : Sys.model) (k : nat) (ynew : Q) (s : state)
    : result :=
  if (0 <? k)%nat then
    match yold s with
    | None => Stopped s
    | Some y_old =>
        match noise_covariance_estimation m (Z.of_nat k) ynew y_old (L s) with
        | None => Stopped s
        | Some (R_est_new, L') =>
            let s := set_L L' s in
            if Qgt_bool R_est_new 0 then Normal (set_R_est R_est_new s)
            else Normal s
        end
    end
  else Normal s.

(** Line 162. *)
Definition record_R_est (k : nat) (s : state) : result :=
  match setitem (R_est_history s) k (R_est s) with
  | Some h => Normal (set_history h s)
  | None => Stopped s
  end.

(** Line 163. *)
Definition state_update (m : Sys.model) (ynew : Q) (s : state) : result :=
  match state_estimation m (R_est s) ynew (x_post s) (P_post s) with
  | Some (x, P) => Normal (set_estimate x P s)
  | None => Stopped s
  end.

(** Line 165. *)
Definition remember (ynew : Q) (s : state) : result :=
  Normal (set_yold ynew s).

(** One iteration with counter [k] and measurement [ynew]. *)
Definition loop_body (m : Sys.model) (k : nat) (ynew : Q) (s : state)
    : result :=
  andthen (noise_update m k ynew s) (fun s =>
  andthen (record_R_est k s) (fun s =>
  andthen (state_update m ynew s) (fun s =>
  remember ynew s))).

(** [for k in range(T)] from counter [k] on, one measurement per turn. *)
Fixpoint loop (m : Sys.model) (k : nat) (ys : list Q) (s : state) : result :=
  match ys with
  | [] => Normal s
  | ynew :: ys' =>
      andthen (loop_body m k ynew s) (loop m (Datatypes.S k) ys')
  end.

(** Lines 48-52: the priors and the empty history of length [T]. *)
Definition initial (x_post P_post R_est L : Q) (T : nat) : state :=
  State None x_post P_post R_est L (repeat 0 T).

(** Cells 1 and 2: everything that happens before the loop. *)
Definition setup (F H Qw x_post P_post R_est L : Q) (T : nat)
    : option (Sys.model * state) :=
  m <- precompute F H Qw ;;
  Some (m, initial x_post P_post R_est L T).

(** The notebook on the measurements [ys], with [T = len(ys)]. *)
Definition run (F H Qw x_post P_post R_est L : Q) (ys : list Q)
    : option result :=
  match setup F H Qw x_post P_post R_est L (length ys) with
  | Some (m, s) => Some (loop m 0 ys s)
  | None => None
  end.

(** The notebook's own parameters:
    [F, H, Q = 0.5, 2, 4] and [x_post, P_post, R_est, L = 0, 100, 100, 0]. *)
Definition notebook (ys : list Q) : option result :=
  run (1 # 2) 2 4 0 100 100 0 ys.

(** [precompute] on the notebook's [F, H, Q]. *)
Definition notebook_model : Sys.model :=
  Sys.Model (1 # 2) 2 (1 # 2) 1 (-1 # 4) (1 # 2) 1 (20 # 64) (20 # 64) 4 4.

(** The namespace after the notebook's step 0 on the measurement [1], with
    [T = 3] (the estimate itself is not needed by the noise update). *)
Definition after_first : state := State (Some 1) 0 100 100 0 [100; 0; 0].

(** The claim that construction validates its parameters, as worded:
    [H = 0] is rejected, and so is a prior [R_est <= 0] or [P_post <= 0]. *)
Definition construction_validates : Prop :=
  forall (F H Qw x_post P_post R_est L : Q) (T : nat),
    (H == 0 -> setup F H Qw x_post P_post R_est L T = None) /\
    (R_est <= 0 \/ P_post <= 0 ->
     setup F H Qw x_post P_post R_est L T = None).

(** The parameters under which every division of the loop has a value:
    a usable [S], non-negative variances, a positive noise estimate, room
    in the history, and a previous measurement once [k > 0]. *)
Definition well_formed (m : Sys.model) (k : nat) (n : nat) (s : state) : Prop :=
  ~ Sys.S m == 0 /\ 0 <= Sys.Q m /\ 0 <= P_post s /\ 0 < R_est s /\
  (k + n <= length (R_est_history s))%nat /\
  (k = 0%nat \/ yold s <> None).

(** ** The claims' formulas, written as the specification words them *)

(** [(1/k) (Z_1^2 + ... + Z_k^2)] for the calls [(y_new_i, y_old_i)]. *)
Fixpoint sum_squares (m : Sys.model) (calls : list (Q * Q)) : Q :=
  match calls with
  | [] => 0
  | (y_new, y_old) :: rest =>
      innovation m y_new y_old ^ 2 + sum_squares m rest
  end.

Definition mean_squares (m : Sys.model) (calls : list (Q * Q)) : Q :=
  sum_squares m calls / inject_Z (Z.of_nat (length calls)).

(** The mean of the claim, on its own formula for the scaled innovations:
    [Z_i = Mopi (y_new_i - F y_old_i)] and [(1/k) (Z_1^2 + ... + Z_k^2)],
    with [Mopi] and [F] given. *)
Definition spec_innovation (Mopi F y_new y_old : Q) : Q :=
  Mopi * (y_new - F * y_old).

Fixpoint spec_sum_squares (Mopi F : Q) (calls : list (Q * Q)) : Q :=
  match calls with
  | [] => 0
  | (y_new, y_old) :: rest =>
      spec_innovation Mopi F y_new y_old ^ 2 + spec_sum_squares Mopi F rest
  end.

Definition spec_mean_squares (Mopi F : Q) (calls : list (Q * Q)) : Q :=
  (1 / inject_Z (Z.of_nat (length calls))) * spec_sum_squares Mopi F calls.

(** The formulas of the noise-estimator update. *)
Definition spec_Z (F H y_new y_prev : Q) : Q :=
  (1 / H) * (y_new - F * y_prev).

Definition spec_running_mean (L : Q) (k : Z) (Z : Q) : Q :=
  L * (inject_Z k - 1) / inject_Z k + Z ^ 2 / inject_Z k.

(** The formulas of the state-estimation step. *)
Definition spec_P_pre (m : Sys.model) (P_post_prev : Q) : Q :=
  Sys.F m ^ 2 * P_post_prev + Sys.Q m.

Definition spec_gain (m : Sys.model) (R_est P_pre : Q) : Q :=
  (P_pre * Sys.H m) / (Sys.H m ^ 2 * P_pre + R_est).

Definition spec_x_post (m : Sys.model) (K ynew x_pre : Q) : Q :=
  x_pre + K * (ynew - Sys.H m * x_pre).

Definition spec_joseph (m : Sys.model) (R_est K P_pre : Q) : Q :=
  (1 - K * Sys.H m) ^ 2 * P_pre + K ^ 2 * R_est.

Definition spec_simplified (m : Sys.model) (K P_pre : Q) : Q :=
  (1 - K * Sys.H m) * P_pre.

(** Consecutive calls of the estimator with step counts [k], [k+1], ...,
    each fed the [L] the previous one returned; the last [L] is kept. *)
Fixpoint consecutive_calls (m : Sys.model) (k : Z) (calls : list (Q * Q))
    (L : Q) : option Q :=
  match calls with
  | [] => Some L
  | (y_new, y_old) :: rest =>
      match noise_covariance_estimation m k y_new y_old L with
      | Some (_, L') => consecutive_calls m (k + 1) rest L'
      | None => None
      end
  end.


(** ** The simulated plant (lines 156, 157 and 164)

    Line 156 draws the two noise samples of the iteration,
    [w = Q**0.5 * randn()] and [v = R**0.5 * randn()].  Random draws and
    square roots have no rational model: the pair [(w, v)] each iteration
    uses is an input. *)

(** Line 157: [ynew = H*x + v]. *)
Definition plant_measure (m : Sys.model) (x v : Q) : Q :=
  Sys.H m * x + v.

(** Line 164: [x = F*x + w]. *)
Definition plant_advance (m : Sys.model) (x w : Q) : Q :=
  Sys.F m * x + w.

(** The measurements the plant produces from the true state [x] on the
    samples [(w, v)], one per iteration. *)
Fixpoint measurements (m : Sys.model) (x : Q) (noise : list (Q * Q))
    : list Q :=
  match noise with
  | [] => []
  | (w, v) :: rest =>
      plant_measure m x v :: measurements m (plant_advance m x w) rest
  end.

(** The true state after the plant has consumed all samples. *)
Fixpoint plant_end (m : Sys.model) (x : Q) (noise : list (Q * Q)) : Q :=
  match noise with
  | [] => x
  | (w, _) :: rest => plant_end m (plant_advance m x w) rest
  end.

(** Lines 156-165 with the plant in place: the iteration of [loop_body]
    with [ynew] computed on line 157 and [x] advanced on line 164, between
    the state estimation and the assignment of [yold].  A stopped iteration
    leaves [x] as it was. *)
Definition sim_body (m : Sys.model) (k : nat) (wv : Q * Q) (x : Q)
    (s : state) : Q * result :=
  let (w, v) := wv in
  let ynew := plant_measure m x v in
  match andthen (noise_update m k ynew s) (fun s =>
        andthen (record_R_est k s) (fun s =>
        state_update m ynew s)) with
  | Normal s' => (plant_advance m x w, remember ynew s')
  | Stopped s' => (x, Stopped s')
  end.

(** The whole loop with the plant in place. *)
Fixpoint simulate (m : Sys.model) (k : nat) (x : Q) (noise : list (Q * Q))
    (s : state) : Q * result :=
  match noise with
  | [] => (x, Normal s)
  | wv :: rest =>
      match sim_body m k wv x s with
      | (x', Normal s') => simulate m (Datatypes.S k) x' rest s'
      | (x', Stopped s') => (x', Stopped s')
      end
  end.

(** Two namespaces that agree on everything the noise estimator reads or
    writes: they may differ in [x_post] and [P_post] only. *)
Definition same_noise_side (s t : state) : Prop :=
  yold s = yold t /\ R_est s = R_est t /\ L s = L t /\
  R_est_history s = R_est_history t.

(** ** Everything before the loop, with line 84 *)

(** Line 84, [print_k = np.logspace(0, np.log10(T), np.log10(T)+1)], hands
    numpy a float where it expects a count.  What that call yields depends
    on the numpy installed (an array with older releases, a [TypeError]
    with newer ones) and is taken as given: [logspace T] is the array, or
    [None] when the call raises.  Line 84 runs after lines 76-83. *)
Definition cells_before_loop (logspace : nat -> option (list Q))
    (F H Qw x_post P_post R_est L : Q) (T : nat)
    : option (Sys.model * list Q * state) :=
  let s := initial x_post P_post R_est L T in
  m <- precompute F H Qw ;;
  print_k <- logspace T ;;
  Some (m, print_k, s).

(** ** The state estimator on binary64 numbers

    Lines 124-131 once more, on the numbers the notebook really computes
    with: Python floats and numpy [float64] scalars are both IEEE binary64
    with rounding to nearest even, as the primitive floats here; [*], [+]
    and [-] never raise and overflow to [inf].  The two kinds differ in the
    division by zero only: Python numbers raise, numpy scalars yield [inf]
    or [nan] (with a warning).  The arguments are binary64 values; a Python
    integer of the notebook stands for the float it converts to. *)

Module Binary64.

Inductive operands : Type := PythonNumbers | NumpyScalars.

(** [a / b] on line 127. *)
Definition divide (o : operands) (a b : float) : option float :=
  match o with
  | PythonNumbers => if (b =? 0)%float then None else Some (a / b)%float
  | NumpyScalars => Some (a / b)%float
  end.

(** Line 127. *)
Definition kalman_gain (o : operands) (H R_est P_pre : float)
    : option float :=
  divide o (P_pre * H)%float (H * P_pre * H + R_est)%float.

(** Lines 124-131. *)
Definition state_estimation (o : operands) (F H Qv R_est ynew : float)
    (x_post P_post : float) : option (float * float) :=
  let x_pre := (F * x_post)%float in
  let P_pre := (F * P_post * F + Qv)%float in
  match kalman_gain o H R_est P_pre with
  | None => None
  | Some K =>
      let x_post := (x_pre + K * (ynew - H * x_pre))%float in
      let IKH := (1 - K * H)%float in
      let P_post := (IKH * P_pre * IKH + K * R_est * K)%float in
      Some (x_post, P_post)
  end.

(** [x >= 0], or [x] is [nan]. *)
Definition nonneg_or_nan (x : float) : bool :=
  (is_nan x || (0 <=? x)%float)%bool.

(** The claim on the variance, as worded, read on the code's numbers. *)
Definition variance_stays_nonneg : Prop :=
  forall (o : operands) (F H Qv R_est ynew x_post P_post x' P' : float),
    (0 <=? P_post)%float = true -> (0 <=? Qv)%float = true ->
    (0 <? R_est)%float = true ->
    state_estimation o F H Qv R_est ynew x_post P_post = Some (x', P') ->
    (0 <=? P')%float = true.


(** The sign of a binary64 number, up to what the operations can tell:
    [nan], a zero of either sign, positive or negative (finite or
    infinite). *)
Inductive sign_class : Type := Cnan | Czero | Cpos | Cneg.

Definition class_of (x : spec_float) : sign_class :=
  match x with
  | S754_nan => Cnan
  | S754_zero _ => Czero
  | S754_infinity s | S754_finite s _ _ => if s then Cneg else Cpos
  end.

Definition float_class (x : float) : sign_class := class_of (Prim2SF x).

Definition signed (s : bool) : sign_class := if s then Cneg else Cpos.

(** The classes a product can fall in (it may underflow to zero, and
    [0 * inf] is [nan]). *)
Definition class_mul (a b : sign_class) : list sign_class :=
  match a, b with
  | Cnan, _ | _, Cnan => [Cnan]
  | Czero, Czero => [Czero]
  | Czero, _ | _, Czero => [Czero; Cnan]
  | Cpos, Cpos | Cneg, Cneg => [Cpos; Czero; Cnan]
  | Cpos, Cneg | Cneg, Cpos => [Cneg; Czero; Cnan]
  end.

(** The classes a sum can fall in. *)
Definition class_add (a b : sign_class) : list sign_class :=
  match a, b with
  | Cnan, _ | _, Cnan => [Cnan]
  | Czero, c | c, Czero => [c]
  | Cpos, Cpos => [Cpos; Czero; Cnan]
  | Cneg, Cneg => [Cneg; Czero; Cnan]
  | _, _ => [Cpos; Cneg; Czero; Cnan]
  end.

Definition class_ok (c : sign_class) : bool :=
  match c with Cneg => false | _ => true end.

End Binary64.

(** ** Division *)

Lemma pydiv_Some (a b : Q) : ~ b == 0 -> pydiv a b = Some (a / b).
Proof.
  intros Hb. unfold pydiv.
  destruct (Qeq_bool b 0) eqn:E; [|reflexivity].
  apply Qeq_bool_iff in E. contradiction.
Qed.

Lemma pydiv_Some_inv (a b q : Q) :
  pydiv a b = Some q -> ~ b == 0 /\ q = a / b.
Proof.
  unfold pydiv. destruct (Qeq_bool b 0) eqn:E; [discriminate|].
  intros [= <-]. split; [|reflexivity].
  now apply Qeq_bool_neq.
Qed.

Lemma pydiv_None (a b : Q) : pydiv a b = None <-> b == 0.
Proof.
  unfold pydiv. destruct (Qeq_bool b 0) eqn:E.
  - apply Qeq_bool_iff in E. tauto.
  - apply Qeq_bool_neq in E. split; [discriminate|contradiction].
Qed.

Lemma Qgt_bool_iff (a b : Q) : Qgt_bool a b = true <-> b < a.
Proof.
  unfold Qgt_bool. rewrite negb_true_iff.
  destruct (Qle_bool a b) eqn:E.
  - apply Qle_bool_iff in E. split; [discriminate|]. intros Hlt.
    exfalso. apply (Qlt_not_le _ _ Hlt E).
  - split; [intros _|reflexivity].
    apply Qnot_le_lt. intros Hle. apply Qle_bool_iff in Hle. congruence.
Qed.

Lemma Qgt_bool_false (a b : Q) : Qgt_bool a b = false <-> a <= b.
Proof.
  unfold Qgt_bool. rewrite negb_false_iff. apply Qle_bool_iff.
Qed.

Lemma inject_Z_pos (k : Z) : (1 <= k)%Z -> 0 < inject_Z k.
Proof.
  intros Hk. change 0 with (inject_Z 0). rewrite <- Zlt_Qlt. lia.
Qed.

(** ** The precomputed constants *)

Lemma precompute_inv (F H Qw : Q) (m : Sys.model) :
  precompute F H Qw = Some m ->
  ~ H == 0 /\
  m = Sys.Model F H (1 / H) 1 (- F * (1 / H)) (1 / H) (1 ^ 2)
        ((- F * (1 / H)) ^ 2 + (1 / H) ^ 2)
        ((- F * (1 / H)) ^ 2 + (1 / H) ^ 2) (1 ^ 2 * Qw) Qw.
Proof.
  unfold precompute. destruct (pydiv 1 H) as [q|] eqn:E; [|discriminate].
  apply pydiv_Some_inv in E. destruct E as [Hn ->].
  intros [= <-]. split; [exact Hn|reflexivity].
Qed.

Lemma precompute_S_pos (F H Qw : Q) (m : Sys.model) :
  precompute F H Qw = Some m -> 0 < Sys.S m.
Proof.
  intros Hm. apply precompute_inv in Hm. destruct Hm as [Hn ->]. simpl.
  assert (E : (- F * (1 / H)) ^ 2 + (1 / H) ^ 2
              == (F ^ 2 + 1) * (1 / H) ^ 2) by (field; exact Hn).
  rewrite E.
  assert (H1 : ~ 1 / H == 0).
  { intros E0. apply Hn.
    assert (E1 : H * (1 / H) == 1) by (field; exact Hn).
    rewrite E0 in E1. lra. }
  nra.
Qed.

(** ** The state estimator *)

Section StateEstimator.

Variable m : Sys.model.

Lemma gain_divisor_pos (R_est P_pre : Q) :
  0 <= P_pre -> 0 < R_est -> 0 < Sys.H m * P_pre * Sys.H m + R_est.
Proof. intros HP HR. nra. Qed.

Lemma kalman_gain_defined (R_est P_pre : Q) :
  ~ Sys.H m * P_pre * Sys.H m + R_est == 0 ->
  kalman_gain m R_est P_pre
  = Some (P_pre * Sys.H m / (Sys.H m * P_pre * Sys.H m + R_est)).
Proof. intros Hd. unfold kalman_gain. now apply pydiv_Some. Qed.

Lemma state_estimation_defined (R_est ynew x P : Q) :
  ~ Sys.H m * predicted_variance m P * Sys.H m + R_est == 0 ->
  exists K,
    kalman_gain m R_est (predicted_variance m P) = Some K /\
    state_estimation m R_est ynew x P
    = Some (Sys.F m * x + K * (ynew - Sys.H m * (Sys.F m * x)),
            covariance_update m R_est K (predicted_variance m P)).
Proof.
  intros Hd. eexists. split; [now apply kalman_gain_defined|].
  unfold state_estimation. now rewrite kalman_gain_defined.
Qed.

Lemma predicted_variance_nonneg (P : Q) :
  0 <= P -> 0 <= Sys.Q m -> 0 <= predicted_variance m P.
Proof. intros HP HQ. unfold predicted_variance. nra. Qed.

Lemma covariance_update_nonneg (R_est K P_pre : Q) :
  0 <= P_pre -> 0 <= R_est -> 0 <= covariance_update m R_est K P_pre.
Proof.
  intros HP HR. unfold covariance_update. cbv zeta.
  set (a := 1 - K * Sys.H m).
  assert (Ha : 0 <= P_pre * (a * a)) by (apply Qmult_le_0_compat; nra).
  assert (Hk : 0 <= R_est * (K * K)) by (apply Qmult_le_0_compat; nra).
  lra.
Qed.

End StateEstimator.

Section StateEstimatorClaims.

Variable m : Sys.model.

Lemma spec_divisor (R_est P_pre : Q) :
  Sys.H m * P_pre * Sys.H m + R_est == Sys.H m ^ 2 * P_pre + R_est.
Proof. ring. Qed.

Lemma spec_P_pre_eq (P : Q) : predicted_variance m P == spec_P_pre m P.
Proof. unfold predicted_variance, spec_P_pre. ring. Qed.

(** C4.  With a non-zero gain divisor, one call of [state_estimation]
    returns [x_post = x_pre + K (y_new - H x_pre)] and
    [P_post = (1 - K H)^2 P_pre + K^2 R_est], where [x_pre = F x_post_prev],
    [P_pre = F^2 P_post_prev + Q] and [K = P_pre H / (H^2 P_pre + R_est)]. *)
Theorem state_estimation_formulas (R_est ynew x_post_prev P_post_prev : Q) :
  ~ Sys.H m ^ 2 * spec_P_pre m P_post_prev + R_est == 0 ->
  exists x' P',
    state_estimation m R_est ynew x_post_prev P_post_prev = Some (x', P') /\
    x' == spec_x_post m (spec_gain m R_est (spec_P_pre m P_post_prev)) ynew
            (Sys.F m * x_post_prev) /\
    P' == spec_joseph m R_est (spec_gain m R_est (spec_P_pre m P_post_prev))
            (spec_P_pre m P_post_prev).
Proof.
  intros Hd.
  assert (Hd' : ~ Sys.H m * predicted_variance m P_post_prev * Sys.H m
                  + R_est == 0).
  { intros E. apply Hd. rewrite <- E.
    unfold predicted_variance, spec_P_pre. ring. }
  destruct (state_estimation_defined m R_est ynew x_post_prev P_post_prev Hd')
    as (K & HK & Hs).
  rewrite kalman_gain_defined in HK by exact Hd'. injection HK as <-.
  do 2 eexists. split; [exact Hs|].
  unfold spec_x_post, spec_joseph, spec_gain, covariance_update,
    predicted_variance, spec_P_pre in *.
  split; field; (intros E; first [apply Hd | apply Hd']; rewrite <- E; ring).
Qed.

Lemma state_estimation_variance (R_est ynew x_post_prev P_post_prev : Q) :
  0 <= P_post_prev -> 0 <= Sys.Q m -> 0 < R_est ->
  exists x' P',
    state_estimation m R_est ynew x_post_prev P_post_prev = Some (x', P') /\
    0 <= P'.
Proof.
  intros HP HQ HR.
  pose proof (predicted_variance_nonneg m P_post_prev HP HQ) as Hpre.
  pose proof (gain_divisor_pos m R_est _ Hpre HR) as Hpos.
  destruct (state_estimation_defined m R_est ynew x_post_prev P_post_prev)
    as (K & _ & Hs); [lra|].
  do 2 eexists. split; [exact Hs|].
  apply covariance_update_nonneg; lra.
Qed.

(** C8.  With a non-zero divisor and [K = P_pre H / (H^2 P_pre + R_est)],
    the Joseph form [(1 - K H)^2 P_pre + K^2 R_est] equals the simplified
    form [(1 - K H) P_pre]; [K] is the gain the code computes and the Joseph
    form is the variance it returns. *)
Theorem joseph_is_simplified (R_est P_pre : Q) :
  ~ Sys.H m ^ 2 * P_pre + R_est == 0 ->
  spec_joseph m R_est (spec_gain m R_est P_pre) P_pre
  == spec_simplified m (spec_gain m R_est P_pre) P_pre /\
  exists K,
    kalman_gain m R_est P_pre = Some K /\
    K == spec_gain m R_est P_pre /\
    covariance_update m R_est K P_pre == spec_simplified m K P_pre.
Proof.
  intros Hd.
  assert (Hd' : ~ Sys.H m * P_pre * Sys.H m + R_est == 0)
    by (now rewrite spec_divisor).
  split.
  - unfold spec_joseph, spec_simplified, spec_gain. field. exact Hd.
  - eexists. split; [now apply kalman_gain_defined|].
    unfold spec_gain, covariance_update, spec_simplified.
    split; field; assumption.
Qed.


End StateEstimatorClaims.

(** ** The noise estimator *)

Section NoiseEstimator.

Variable m : Sys.model.
Hypothesis S_nonzero : ~ Sys.S m == 0.

Lemma noise_estimation_defined (k : Z) (y_new y_old L0 : Q) :
  (1 <= k)%Z ->
  let L' := L0 * inject_Z (k - 1) / inject_Z k
            + innovation m y_new y_old * innovation m y_new y_old
              / inject_Z k in
  noise_covariance_estimation m k y_new y_old L0
  = Some ((L' - Sys.CW m) / Sys.S m, L').
Proof.
  intros Hk L'. pose proof (inject_Z_pos k Hk) as Hpos.
  unfold noise_covariance_estimation.
  rewrite !pydiv_Some by lra. reflexivity.
Qed.

Lemma running_mean_step (k : Z) (L0 z : Q) :
  (1 <= k)%Z ->
  (L0 * inject_Z (k - 1) / inject_Z k + z * z / inject_Z k) * inject_Z k
  == L0 * inject_Z (k - 1) + z ^ 2.
Proof.
  intros Hk. pose proof (inject_Z_pos k Hk) as Hpos. field. lra.
Qed.

Lemma consecutive_calls_sum (calls : list (Q * Q)) :
  forall (k : Z) (L0 : Q), (1 <= k)%Z ->
  exists L',
    consecutive_calls m k calls L0 = Some L' /\
    L' * inject_Z (k - 1 + Z.of_nat (length calls))
    == L0 * inject_Z (k - 1) + sum_squares m calls.
Proof.
  induction calls as [|[y_new y_old] rest IH]; intros k L0 Hk.
  - exists L0. split; [reflexivity|]. cbn [length sum_squares].
    replace (k - 1 + Z.of_nat 0)%Z with (k - 1)%Z by lia. ring.
  - cbn [consecutive_calls].
    rewrite (noise_estimation_defined k y_new y_old L0 Hk). cbv zeta.
    set (L1 := L0 * inject_Z (k - 1) / inject_Z k
               + innovation m y_new y_old * innovation m y_new y_old
                 / inject_Z k).
    destruct (IH (k + 1)%Z L1) as (L' & HL' & Hsum); [lia|].
    exists L'. split; [exact HL'|].
    cbn [length sum_squares].
    replace (k - 1 + Z.of_nat (Datatypes.S (length rest)))%Z
      with (k + 1 - 1 + Z.of_nat (length rest))%Z by lia.
    rewrite Hsum.
    replace (k + 1 - 1)%Z with k by lia.
    unfold L1. rewrite running_mean_step by exact Hk. ring.
Qed.

Lemma consecutive_calls_mean (calls : list (Q * Q)) (L0 : Q) :
  calls <> [] ->
  exists L',
    consecutive_calls m 1 calls L0 = Some L' /\
    L' == mean_squares m calls.
Proof.
  intros Hne.
  destruct (consecutive_calls_sum calls 1%Z L0) as (L' & HL' & Hsum); [lia|].
  exists L'. split; [exact HL'|].
  unfold mean_squares.
  assert (Hlen : 0 < inject_Z (Z.of_nat (length calls))).
  { apply inject_Z_pos. destruct calls; [contradiction|cbn [length]; lia]. }
  replace (1 - 1 + Z.of_nat (length calls))%Z
    with (Z.of_nat (length calls)) in Hsum by lia.
  change (inject_Z (1 - 1)) with 0 in Hsum.
  set (n := inject_Z (Z.of_nat (length calls))) in *.
  assert (E : L' == L' * n / n) by (field; lra).
  rewrite E, Hsum. field. lra.
Qed.

End NoiseEstimator.

Lemma sum_squares_spec (m : Sys.model) (calls : list (Q * Q)) :
  sum_squares m calls = spec_sum_squares (Sys.Mopi m) (Sys.F m) calls.
Proof.
  induction calls as [|[y_new y_old] rest IH]; [reflexivity|].
  cbn [sum_squares spec_sum_squares]. now rewrite IH.
Qed.

(** C2.  After [k >= 1] consecutive calls with step counts [1, ..., k], from
    any initial [L], the [L] returned last is the arithmetic mean
    [(1/k) (Z_1^2 + ... + Z_k^2)] of the squared scaled innovations
    [Z_i = Mopi (y_new_i - F y_old_i)] of those calls, where [Mopi] is the
    [1/H] of line 76; each call applies [L <- L (k-1)/k + Z^2/k] with its
    own [Z]. *)
Theorem running_mean_is_mean (F H Qw : Q) (m : Sys.model)
    (calls : list (Q * Q)) (L0 : Q) :
  precompute F H Qw = Some m -> calls <> [] ->
  (exists L',
     consecutive_calls m 1 calls L0 = Some L' /\
     L' == mean_squares m calls /\
     L' == spec_mean_squares (Sys.Mopi m) F calls /\
     L' == spec_mean_squares (1 / H) F calls) /\
  (forall (k : Z) (y_new y_old L1 : Q), (1 <= k)%Z ->
     exists cand L',
       noise_covariance_estimation m k y_new y_old L1 = Some (cand, L') /\
       L' == spec_running_mean L1 k (innovation m y_new y_old) /\
       L' == spec_running_mean L1 k (spec_innovation (1 / H) F y_new y_old)).
Proof.
  intros Hm Hne.
  assert (HS : ~ Sys.S m == 0).
  { pose proof (precompute_S_pos _ _ _ _ Hm). lra. }
  assert (HM : Sys.Mopi m = 1 / H /\ Sys.F m = F).
  { apply precompute_inv in Hm. destruct Hm as [_ ->]. now split. }
  destruct HM as [HM HF].
  assert (Hstep : forall (k : Z) (y_new y_old L1 : Q), (1 <= k)%Z ->
            exists cand L',
              noise_covariance_estimation m k y_new y_old L1
              = Some (cand, L') /\
              L' == spec_running_mean L1 k (innovation m y_new y_old)).
  { intros k y_new y_old L1 Hk.
    do 2 eexists. split; [now apply noise_estimation_defined|].
    pose proof (inject_Z_pos k Hk) as Hpos.
    unfold spec_running_mean.
    replace (k - 1)%Z with (k + - 1)%Z by lia.
    rewrite inject_Z_plus. change (inject_Z (-1)) with (-1).
    field. lra. }
  split.
  - destruct (consecutive_calls_mean m HS calls L0 Hne)
      as (L' & HL' & Hmean).
    exists L'. split; [exact HL'|]. split; [exact Hmean|].
    assert (Hlen : 0 < inject_Z (Z.of_nat (length calls))).
    { apply inject_Z_pos. destruct calls; [contradiction|cbn [length]; lia]. }
    assert (E : L' == spec_mean_squares (Sys.Mopi m) (Sys.F m) calls).
    { rewrite Hmean. unfold mean_squares, spec_mean_squares.
      rewrite sum_squares_spec. field. lra. }
    rewrite HF in E. split; [exact E|]. now rewrite <- HM.
  - intros k y_new y_old L1 Hk.
    destruct (Hstep k y_new y_old L1 Hk) as (cand & L' & Hn & HL).
    exists cand, L'. split; [exact Hn|]. split; [exact HL|].
    rewrite <- HM, <- HF. exact HL.
Qed.

Lemma inject_Z_pred (k : Z) : inject_Z (k - 1) == inject_Z k - 1.
Proof.
  replace (k - 1)%Z with (k + - 1)%Z by lia.
  rewrite inject_Z_plus. change (inject_Z (-1)) with (-1). ring.
Qed.

(** C3.  With the constants precomputed from [F, H, Q]
    ([Mopi = 1/H], [B1 = -F Mopi], [B2 = Mopi], [S = B1^2 + B2^2],
    [kronA = 1], [CW = Q]), a call with step count [k >= 1] computes
    [Z = (1/H) (y_new - F y_prev)], updates [L] to [L (k-1)/k + Z^2/k] and
    returns the candidate [(L_updated - CW) / S]. *)
Theorem noise_estimator_formulas (F H Qw : Q) (m : Sys.model) (k : Z)
    (y_new y_prev L0 : Q) :
  precompute F H Qw = Some m -> (1 <= k)%Z ->
  (Sys.F m = F /\ Sys.H m = H /\ Sys.Q m = Qw /\
   Sys.Mopi m == 1 / H /\
   Sys.B1 m == - F * Sys.Mopi m /\
   Sys.B2 m == Sys.Mopi m /\
   Sys.kronA m == 1 /\
   Sys.S m == Sys.B1 m ^ 2 + Sys.B2 m ^ 2 /\
   Sys.CW m == Qw) /\
  exists cand L',
    noise_covariance_estimation m k y_new y_prev L0 = Some (cand, L') /\
    innovation m y_new y_prev == spec_Z F H y_new y_prev /\
    L' == spec_running_mean L0 k (spec_Z F H y_new y_prev) /\
    cand == (L' - Sys.CW m) / Sys.S m /\
    cand == (L' - Qw) / ((- F * (1 / H)) ^ 2 + (1 / H) ^ 2).
Proof.
  intros Hm Hk.
  pose proof (precompute_S_pos _ _ _ _ Hm) as HS.
  pose proof (inject_Z_pos k Hk) as Hpos.
  apply precompute_inv in Hm. destruct Hm as [Hn ->]. cbn in HS |- *.
  split.
  - repeat split; try reflexivity; ring.
  - do 2 eexists. split.
    + apply noise_estimation_defined; [cbn; lra|exact Hk].
    + unfold innovation, spec_Z, spec_running_mean. cbn.
      rewrite inject_Z_pred.
      repeat split; try reflexivity.
      all: field.
      all: try lra.
      repeat split; try lra. nra.
Qed.

(** ** The loop *)

Lemma setitem_Some (a : list Q) (k : nat) (v : Q) :
  (k < length a)%nat ->
  exists h, setitem a k v = Some h /\ length h = length a /\
            nth_error h k = Some v.
Proof.
  revert k. induction a as [|x a IH]; intros k Hk; cbn in Hk; [lia|].
  destruct k as [|k]; cbn.
  - eexists. repeat split.
  - destruct (IH k) as (h & -> & Hlen & Hnth); [lia|].
    eexists. split; [reflexivity|]. cbn. split; [now rewrite Hlen|exact Hnth].
Qed.

Lemma setitem_None (a : list Q) (k : nat) (v : Q) :
  (length a <= k)%nat -> setitem a k v = None.
Proof.
  revert k. induction a as [|x a IH]; intros k Hk; [reflexivity|].
  cbn in Hk. destruct k as [|k]; [lia|]. cbn. rewrite IH by lia. reflexivity.
Qed.

Section Loop.

Variable m : Sys.model.

(** What [noise_update] does, case by case. *)
Lemma noise_update_skipped (ynew : Q) (s : state) :
  noise_update m 0 ynew s = Normal s.
Proof. reflexivity. Qed.

Lemma noise_update_called (k : nat) (ynew y_old cand L' : Q) (s : state) :
  (0 < k)%nat -> yold s = Some y_old ->
  noise_covariance_estimation m (Z.of_nat k) ynew y_old (L s)
  = Some (cand, L') ->
  noise_update m k ynew s
  = Normal (State (yold s) (x_post s) (P_post s)
              (if Qgt_bool cand 0 then cand else R_est s) L'
              (R_est_history s)).
Proof.
  intros Hk Hy Hn. unfold noise_update.
  apply Nat.ltb_lt in Hk. rewrite Hk, Hy, Hn.
  destruct (Qgt_bool cand 0); unfold set_R_est, set_L; cbn;
    rewrite ?Hy; reflexivity.
Qed.

Lemma noise_update_R_est (k : nat) (ynew : Q) (s : state) :
  R_est (final (noise_update m k ynew s)) = R_est s \/
  exists y_old L',
    yold s = Some y_old /\
    noise_covariance_estimation m (Z.of_nat k) ynew y_old (L s)
    = Some (R_est (final (noise_update m k ynew s)), L') /\
    0 < R_est (final (noise_update m k ynew s)).
Proof.
  unfold noise_update.
  destruct (0 <? k)%nat; [|now left].
  destruct (yold s) as [y_old|]; [|now left].
  destruct (noise_covariance_estimation m (Z.of_nat k) ynew y_old (L s))
    as [[cand L']|] eqn:E; [|now left].
  destruct (Qgt_bool cand 0) eqn:G; [|now left].
  right. exists y_old, L'. cbn.
  split; [reflexivity|]. split; [exact E|]. now apply Qgt_bool_iff.
Qed.

Lemma noise_update_positive (k : nat) (ynew : Q) (s : state) :
  0 < R_est s -> 0 < R_est (final (noise_update m k ynew s)).
Proof.
  intros Hpos. destruct (noise_update_R_est k ynew s) as [->|(? & ? & _ & _ & Hc)];
    assumption.
Qed.

Lemma record_R_est_frame (k : nat) (s : state) :
  let s' := final (record_R_est k s) in
  R_est s' = R_est s /\ L s' = L s /\ yold s' = yold s /\
  x_post s' = x_post s /\ P_post s' = P_post s.
Proof.
  unfold record_R_est. destruct (setitem _ _ _); cbn; repeat split.
Qed.

Lemma state_update_frame (ynew : Q) (s : state) :
  let s' := final (state_update m ynew s) in
  R_est s' = R_est s /\ L s' = L s /\ yold s' = yold s /\
  R_est_history s' = R_est_history s.
Proof.
  unfold state_update. destruct (state_estimation _ _ _ _ _) as [[x P]|];
    cbn; repeat split.
Qed.

(** The iteration, spelled out on how each piece ends. *)
Lemma loop_body_cases (k : nat) (ynew : Q) (s : state) :
  loop_body m k ynew s =
  match noise_update m k ynew s with
  | Stopped s1 => Stopped s1
  | Normal s1 =>
      match record_R_est k s1 with
      | Stopped s2 => Stopped s2
      | Normal s2 =>
          match state_update m ynew s2 with
          | Stopped s3 => Stopped s3
          | Normal s3 => Normal (set_yold ynew s3)
          end
      end
  end.
Proof.
  unfold loop_body, andthen, remember.
  destruct (noise_update m k ynew s); [|reflexivity].
  destruct (record_R_est k s0); [|reflexivity].
  destruct (state_update m ynew s1); reflexivity.
Qed.

Lemma loop_body_R_est (k : nat) (ynew : Q) (s : state) :
  R_est (final (loop_body m k ynew s))
  = R_est (final (noise_update m k ynew s)).
Proof.
  rewrite loop_body_cases.
  destruct (noise_update m k ynew s) as [s1|s1]; [|reflexivity].
  pose proof (record_R_est_frame k s1) as (H1 & _).
  destruct (record_R_est k s1) as [s2|s2]; [|exact H1].
  pose proof (state_update_frame ynew s2) as (H2 & _).
  cbn in H1.
  destruct (state_update m ynew s2) as [s3|s3]; cbn in *; congruence.
Qed.

Lemma loop_body_L (k : nat) (ynew : Q) (s : state) :
  L (final (loop_body m k ynew s)) = L (final (noise_update m k ynew s)).
Proof.
  rewrite loop_body_cases.
  destruct (noise_update m k ynew s) as [s1|s1]; [|reflexivity].
  pose proof (record_R_est_frame k s1) as (_ & H1 & _).
  destruct (record_R_est k s1) as [s2|s2]; [|exact H1].
  pose proof (state_update_frame ynew s2) as (_ & H2 & _).
  cbn in H1.
  destruct (state_update m ynew s2) as [s3|s3]; cbn in *; congruence.
Qed.

Lemma loop_body_positive (k : nat) (ynew : Q) (s : state) :
  0 < R_est s -> 0 < R_est (final (loop_body m k ynew s)).
Proof.
  intros Hpos. rewrite loop_body_R_est. now apply noise_update_positive.
Qed.

Lemma loop_positive (ys : list Q) :
  forall (k : nat) (s : state),
    0 < R_est s -> 0 < R_est (final (loop m k ys s)).
Proof.
  induction ys as [|ynew ys IH]; intros k s Hpos; [exact Hpos|].
  cbn [loop]. pose proof (loop_body_positive k ynew s Hpos) as Hb.
  destruct (loop_body m k ynew s) as [s1|s1]; cbn [andthen final] in *.
  - now apply IH.
  - exact Hb.
Qed.

End Loop.

Section WellFormedRuns.

Variable m : Sys.model.

Lemma loop_body_well_formed (k n : nat) (ynew : Q) (s : state) :
  well_formed m k (Datatypes.S n) s ->
  exists s',
    loop_body m k ynew s = Normal s' /\
    well_formed m (Datatypes.S k) n s'.
Proof.
  intros (HS & HQ & HP & HR & Hlen & Hy).
  rewrite loop_body_cases.
  assert (Hn : exists s1,
             noise_update m k ynew s = Normal s1 /\ 0 < R_est s1 /\
             P_post s1 = P_post s /\ x_post s1 = x_post s /\
             R_est_history s1 = R_est_history s).
  { destruct k as [|k].
    - exists s. repeat split; try reflexivity. exact HR.
    - destruct Hy as [Hy|Hy]; [discriminate|].
      destruct (yold s) as [y_old|] eqn:Ey; [|contradiction].
      pose proof (noise_estimation_defined m HS
                    (Z.of_nat (Datatypes.S k)) ynew y_old (L s)) as Hd.
      cbv zeta in Hd.
      eexists. split.
      + apply (noise_update_called m (Datatypes.S k) ynew y_old); 
          [lia|exact Ey|apply Hd; lia].
      + cbn. repeat split; try reflexivity.
        destruct (Qgt_bool _ 0) eqn:G; [now apply Qgt_bool_iff|exact HR]. }
  destruct Hn as (s1 & -> & HR1 & HP1 & Hx1 & Hh1).
  unfold record_R_est.
  destruct (setitem_Some (R_est_history s1) k (R_est s1))
    as (h & -> & Hlenh & _); [rewrite Hh1; lia|].
  unfold state_update. cbn [R_est x_post P_post set_history].
  destruct (state_estimation_variance m (R_est s1) ynew (x_post s1) (P_post s1))
    as (x' & P' & -> & HP'); [rewrite HP1; exact HP|exact HQ|exact HR1|].
  eexists. split; [reflexivity|].
  unfold well_formed. cbn.
  repeat split; try assumption.
  - rewrite Hlenh, Hh1. lia.
  - right. discriminate.
Qed.

Lemma loop_completes (ys : list Q) :
  forall (k : nat) (s : state),
    well_formed m k (length ys) s ->
    exists s',
      loop m k ys s = Normal s' /\
      well_formed m (k + length ys) 0 s'.
Proof.
  induction ys as [|ynew ys IH]; intros k s Hwf.
  - exists s. split; [reflexivity|]. cbn [length] in *.
    now rewrite Nat.add_0_r.
  - cbn [length] in Hwf.
    destruct (loop_body_well_formed k (length ys) ynew s Hwf)
      as (s1 & Hb & Hwf1).
    destruct (IH (Datatypes.S k) s1 Hwf1) as (s' & Hl & Hwf').
    exists s'. cbn [loop]. rewrite Hb. cbn [andthen].
    split; [exact Hl|]. cbn [length].
    now rewrite Nat.add_succ_r.
Qed.

End WellFormedRuns.

(** ** The calls the loop makes *)

Section LoopCalls.

Variable m : Sys.model.

Lemma loop_body_yold (k : nat) (ynew : Q) (s s' : state) :
  loop_body m k ynew s = Normal s' -> yold s' = Some ynew.
Proof.
  rewrite loop_body_cases.
  destruct (noise_update m k ynew s); [|discriminate].
  destruct (record_R_est k s0); [|discriminate].
  destruct (state_update m ynew s1); [|discriminate].
  now intros [= <-].
Qed.


End LoopCalls.


(** ** The variance along the loop *)

Section Variance.

Variable m : Sys.model.
Hypothesis Q_nonneg : 0 <= Sys.Q m.

Lemma noise_update_frame (k : nat) (ynew : Q) (s : state) :
  yold (final (noise_update m k ynew s)) = yold s /\
  x_post (final (noise_update m k ynew s)) = x_post s /\
  P_post (final (noise_update m k ynew s)) = P_post s /\
  R_est_history (final (noise_update m k ynew s)) = R_est_history s.
Proof.
  unfold noise_update.
  destruct (0 <? k)%nat; [|repeat split].
  destruct (yold s) as [y_old|] eqn:Ey;
    [|cbn; rewrite ?Ey; repeat split].
  destruct (noise_covariance_estimation _ _ _ _ _) as [[c L']|];
    [|cbn; rewrite ?Ey; repeat split].
  destruct (Qgt_bool c 0); cbn; rewrite ?Ey; repeat split.
Qed.

Lemma state_update_variance (ynew : Q) (s : state) :
  0 <= P_post s -> 0 < R_est s ->
  0 <= P_post (final (state_update m ynew s)).
Proof.
  intros HP HR. unfold state_update.
  destruct (state_estimation_variance m (R_est s) ynew (x_post s) (P_post s)
              HP Q_nonneg HR) as (x' & P' & -> & HP').
  exact HP'.
Qed.

Lemma loop_body_variance (k : nat) (ynew : Q) (s : state) :
  0 <= P_post s -> 0 < R_est s ->
  0 <= P_post (final (loop_body m k ynew s)).
Proof.
  intros HP HR. rewrite loop_body_cases.
  pose proof (noise_update_frame k ynew s) as (_ & _ & HP1 & _).
  pose proof (noise_update_positive m k ynew s HR) as HR1.
  destruct (noise_update m k ynew s) as [s1|s1]; cbn [final] in *;
    [|now rewrite HP1].
  pose proof (record_R_est_frame k s1) as (HR2 & _ & _ & _ & HP2).
  destruct (record_R_est k s1) as [s2|s2]; cbn [final] in *;
    [|now rewrite HP2, HP1].
  assert (HP3 : 0 <= P_post (final (state_update m ynew s2))).
  { apply state_update_variance; [now rewrite HP2, HP1|now rewrite HR2]. }
  destruct (state_update m ynew s2) as [s3|s3]; exact HP3.
Qed.

Lemma loop_variance (ys : list Q) :
  forall (k : nat) (s : state),
    0 <= P_post s -> 0 < R_est s ->
    0 <= P_post (final (loop m k ys s)).
Proof.
  induction ys as [|ynew ys IH]; intros k s HP HR; [exact HP|].
  cbn [loop].
  pose proof (loop_body_variance k ynew s HP HR) as HP1.
  pose proof (loop_body_positive m k ynew s HR) as HR1.
  destruct (loop_body m k ynew s) as [s1|s1]; cbn [andthen final] in *.
  - now apply IH.
  - exact HP1.
Qed.

End Variance.

(** In exact arithmetic: from [P_post_prev >= 0], [Q >= 0] and [R_est > 0]
    the call succeeds and the [P_post] it returns is non-negative; hence,
    started from such values, the loop keeps [P_post >= 0] wherever it
    stops, on every measurement sequence. *)
Theorem P_post_nonneg (m : Sys.model)
    (R_est0 ynew x_post_prev P_post_prev : Q) :
  0 <= P_post_prev -> 0 <= Sys.Q m -> 0 < R_est0 ->
  (exists x' P',
     state_estimation m R_est0 ynew x_post_prev P_post_prev = Some (x', P') /\
     0 <= P') /\
  (forall (k : nat) (ys : list Q) (s : state),
     P_post s = P_post_prev -> R_est s = R_est0 ->
     0 <= P_post (final (loop m k ys s))).
Proof.
  intros HP HQ HR. split.
  - now apply state_estimation_variance.
  - intros k ys s EP ER. apply loop_variance; [exact HQ| |];
      [now rewrite EP|now rewrite ER].
Qed.

(** ** The orchestration *)

(** C1.  From a positive [R_est], [R_est] is positive wherever the loop
    stops, on every measurement sequence and after each of its steps.  A
    noise update either leaves [R_est] as it was or assigns it the candidate
    the estimator returned, and then that candidate is positive; a returned
    candidate [> 0] is assigned, a returned candidate [<= 0] is not. *)
Theorem R_est_stays_positive (m : Sys.model) (k : nat) (ys : list Q)
    (s : state) :
  0 < R_est s ->
  0 < R_est (final (loop m k ys s)) /\
  (forall n : nat, 0 < R_est (final (loop m k (firstn n ys) s))) /\
  (forall (j : nat) (ynew : Q),
     R_est (final (noise_update m j ynew s)) = R_est s \/
     exists y_old L',
       yold s = Some y_old /\
       noise_covariance_estimation m (Z.of_nat j) ynew y_old (L s)
       = Some (R_est (final (noise_update m j ynew s)), L') /\
       0 < R_est (final (noise_update m j ynew s))) /\
  (forall (j : nat) (ynew y_old cand L' : Q),
     (0 < j)%nat -> yold s = Some y_old ->
     noise_covariance_estimation m (Z.of_nat j) ynew y_old (L s)
     = Some (cand, L') ->
     (0 < cand -> R_est (final (noise_update m j ynew s)) = cand) /\
     (cand <= 0 -> R_est (final (noise_update m j ynew s)) = R_est s)).
Proof.
  intros Hpos. split; [|split; [|split]].
  - now apply loop_positive.
  - intros n. now apply loop_positive.
  - intros j ynew. apply noise_update_R_est.
  - intros j ynew y_old cand L' Hj Hy Hn.
    rewrite (noise_update_called m j ynew y_old cand L' s Hj Hy Hn). cbn.
    split; intros Hc.
    + apply Qgt_bool_iff in Hc. now rewrite Hc.
    + apply Qgt_bool_false in Hc. now rewrite Hc.
Qed.

(** C6.  Whenever the estimator is called and returns [(candidate, L')],
    [L] becomes [L'], also when the candidate is rejected; a rejected
    candidate leaves [R_est] as it was, an accepted one replaces it, and
    nothing else changes in the update. *)
Theorem L_updated_on_every_call (m : Sys.model) (k : nat)
    (ynew y_old cand L' : Q) (s : state) :
  (0 < k)%nat -> yold s = Some y_old ->
  noise_covariance_estimation m (Z.of_nat k) ynew y_old (L s)
  = Some (cand, L') ->
  exists s1,
    noise_update m k ynew s = Normal s1 /\
    L s1 = L' /\
    L (final (loop_body m k ynew s)) = L' /\
    (0 < cand -> R_est s1 = cand) /\
    (cand <= 0 ->
     R_est s1 = R_est s /\ R_est (final (loop_body m k ynew s)) = R_est s) /\
    yold s1 = yold s /\ x_post s1 = x_post s /\ P_post s1 = P_post s /\
    R_est_history s1 = R_est_history s.
Proof.
  intros Hk Hy Hn.
  pose proof (noise_update_called m k ynew y_old cand L' s Hk Hy Hn) as Hu.
  eexists. split; [exact Hu|].
  rewrite loop_body_L, loop_body_R_est, Hu. cbn.
  split; [reflexivity|]. split; [reflexivity|].
  split; [intros Hc; apply Qgt_bool_iff in Hc; now rewrite Hc|].
  split; [intros Hc; apply Qgt_bool_false in Hc; now rewrite Hc|].
  repeat split.
Qed.

(** Recording and state estimation after the noise update, spelled out. *)
Lemma after_noise_update (m : Sys.model) (k : nat) (ynew : Q) (s1 : state) :
  (k < length (R_est_history s1))%nat ->
  exists h,
    setitem (R_est_history s1) k (R_est s1) = Some h /\
    nth_error h k = Some (R_est s1) /\
    andthen (record_R_est k s1)
      (fun s => andthen (state_update m ynew s) (remember ynew))
    = match state_estimation m (R_est s1) ynew (x_post s1) (P_post s1) with
      | Some (x, P) => Normal (State (Some ynew) x P (R_est s1) (L s1) h)
      | None =>
          Stopped (State (yold s1) (x_post s1) (P_post s1) (R_est s1) (L s1) h)
      end.
Proof.
  intros Hlen.
  destruct (setitem_Some (R_est_history s1) k (R_est s1) Hlen)
    as (h & Hset & _ & Hnth).
  exists h. split; [exact Hset|]. split; [exact Hnth|].
  unfold record_R_est. rewrite Hset. cbn [andthen].
  unfold state_update. cbn [R_est x_post P_post set_history].
  destruct (state_estimation _ _ _ _ _) as [[x P]|]; reflexivity.
Qed.

(** C7.  At step 0 the noise update is skipped ([L] and [R_est] keep their
    values, whatever a call would have done), the prior [R_est] is recorded
    at index 0 and the state estimation runs with it.  At a step [k > 0] the
    recorded value and the value the state estimation reads are the
    [R_est] left by the noise update; if the state estimation stops the
    step, the value is already recorded and [yold] still holds the previous
    measurement; otherwise [yold] ends as [ynew].  A noise update that stops
    the step leaves everything untouched.  At a step [k > 0] the estimator
    is invoked, on [ynew], the previous measurement and the current [L],
    with step count [k]: what it returns decides [L] and [R_est] before the
    recording, and when it has no value, or there is no previous
    measurement, the step stops with nothing changed. *)
Theorem step_order (m : Sys.model) (ynew : Q) (s : state) :
  (noise_update m 0 ynew s = Normal s /\
   L (final (loop_body m 0 ynew s)) = L s /\
   R_est (final (loop_body m 0 ynew s)) = R_est s /\
   (R_est_history s <> [] ->
    exists h,
      nth_error h 0 = Some (R_est s) /\
      loop_body m 0 ynew s
      = match state_estimation m (R_est s) ynew (x_post s) (P_post s) with
        | Some (x, P) => Normal (State (Some ynew) x P (R_est s) (L s) h)
        | None =>
            Stopped (State (yold s) (x_post s) (P_post s) (R_est s) (L s) h)
        end)) /\
  (forall (k : nat) (s1 : state),
     (0 < k)%nat ->
     noise_update m k ynew s = Normal s1 ->
     (k < length (R_est_history s))%nat ->
     exists h,
       nth_error h k = Some (R_est s1) /\
       loop_body m k ynew s
       = match state_estimation m (R_est s1) ynew (x_post s) (P_post s) with
         | Some (x, P) => Normal (State (Some ynew) x P (R_est s1) (L s1) h)
         | None =>
             Stopped (State (yold s) (x_post s) (P_post s) (R_est s1) (L s1) h)
         end) /\
  (forall (k : nat) (s1 : state),
     noise_update m k ynew s = Stopped s1 ->
     s1 = s /\ loop_body m k ynew s = Stopped s) /\
  (forall (k : nat) (y_old cand L' : Q),
     (0 < k)%nat -> yold s = Some y_old ->
     noise_covariance_estimation m (Z.of_nat k) ynew y_old (L s)
     = Some (cand, L') ->
     noise_update m k ynew s
     = Normal (State (yold s) (x_post s) (P_post s)
                 (if Qgt_bool cand 0 then cand else R_est s) L'
                 (R_est_history s)) /\
     ((k < length (R_est_history s))%nat ->
      exists h,
        nth_error h k = Some (if Qgt_bool cand 0 then cand else R_est s) /\
        loop_body m k ynew s
        = match state_estimation m
                  (if Qgt_bool cand 0 then cand else R_est s) ynew
                  (x_post s) (P_post s) with
          | Some (x, P) =>
              Normal (State (Some ynew) x P
                        (if Qgt_bool cand 0 then cand else R_est s) L' h)
          | None =>
              Stopped (State (yold s) (x_post s) (P_post s)
                         (if Qgt_bool cand 0 then cand else R_est s) L' h)
          end)) /\
  (forall k : nat,
     (0 < k)%nat ->
     yold s = None \/
     (exists y_old,
        yold s = Some y_old /\
        noise_covariance_estimation m (Z.of_nat k) ynew y_old (L s) = None) ->
     loop_body m k ynew s = Stopped s).
Proof.
  split; [|split; [|split; [|split]]].
  - split; [reflexivity|].
    split; [now rewrite loop_body_L|].
    split; [now rewrite loop_body_R_est|].
    intros Hne.
    destruct (after_noise_update m 0 ynew s) as (h & _ & Hnth & Hrest).
    { destruct (R_est_history s); [contradiction|cbn; lia]. }
    exists h. split; [exact Hnth|exact Hrest].
  - intros k s1 Hk Hu Hlen.
    pose proof (noise_update_frame m k ynew s) as (Hy & Hx & HP & Hh).
    rewrite Hu in Hy, Hx, HP, Hh. cbn [final] in Hy, Hx, HP, Hh.
    destruct (after_noise_update m k ynew s1) as (h & _ & Hnth & Hrest).
    { now rewrite Hh. }
    exists h. split; [exact Hnth|].
    unfold loop_body. rewrite Hu. cbn [andthen].
    rewrite <- Hy, <- Hx, <- HP. exact Hrest.
  - intros k s1 Hu. unfold loop_body. rewrite Hu. cbn [andthen].
    unfold noise_update in Hu.
    destruct (0 <? k)%nat; [|discriminate].
    destruct (yold s) as [y_old|]; [|injection Hu as <-; now split].
    destruct (noise_covariance_estimation _ _ _ _ _) as [[c L']|];
      [|injection Hu as <-; now split].
    destruct (Qgt_bool c 0); discriminate.
  - intros k y_old cand L' Hk Hy Hn.
    pose proof (noise_update_called m k ynew y_old cand L' s Hk Hy Hn) as Hu.
    split; [exact Hu|]. intros Hlen.
    destruct (after_noise_update m k ynew
                (State (yold s) (x_post s) (P_post s)
                   (if Qgt_bool cand 0 then cand else R_est s) L'
                   (R_est_history s)) Hlen) as (h & _ & Hnth & Hrest).
    exists h. split; [exact Hnth|].
    unfold loop_body. rewrite Hu. cbn [andthen]. exact Hrest.
  - intros k Hk Hcall. unfold loop_body, noise_update.
    apply Nat.ltb_lt in Hk. rewrite Hk.
    destruct Hcall as [Hy|(y_old & Hy & Hn)]; rewrite Hy; [reflexivity|].
    rewrite Hn. reflexivity.
Qed.

(** ** What the history keeps *)

Lemma setitem_other (a : list Q) (k j : nat) (v : Q) (h : list Q) :
  setitem a k v = Some h -> j <> k -> nth_error h j = nth_error a j.
Proof.
  revert k j h. induction a as [|x a IH]; intros k j h Hs Hjk;
    [discriminate|].
  destruct k as [|k]; cbn in Hs.
  - injection Hs as <-. destruct j as [|j]; [contradiction|reflexivity].
  - destruct (setitem a k v) as [t|] eqn:E; [|discriminate].
    injection Hs as <-. destruct j as [|j]; [reflexivity|].
    cbn. apply (IH k j t E). congruence.
Qed.

Section History.

Variable m : Sys.model.

Lemma loop_body_keeps_other (k j : nat) (ynew : Q) (s : state) :
  j <> k ->
  nth_error (R_est_history (final (loop_body m k ynew s))) j
  = nth_error (R_est_history s) j.
Proof.
  intros Hjk. rewrite loop_body_cases.
  pose proof (noise_update_frame m k ynew s) as (_ & _ & _ & Hh).
  destruct (noise_update m k ynew s) as [s1|s1]; cbn [final] in *;
    [|now rewrite Hh].
  rewrite <- Hh. clear Hh. unfold record_R_est.
  destruct (setitem (R_est_history s1) k (R_est s1)) as [h|] eqn:E;
    [|reflexivity].
  pose proof (state_update_frame m ynew (set_history h s1))
    as (_ & _ & _ & Hh).
  destruct (state_update m ynew (set_history h s1)) as [s3|s3];
    cbn [final set_yold R_est_history] in *; rewrite Hh; cbn;
    exact (setitem_other _ k j _ h E Hjk).
Qed.

Lemma loop_keeps_earlier (ys : list Q) :
  forall (k j : nat) (s : state),
    (j < k)%nat ->
    nth_error (R_est_history (final (loop m k ys s))) j
    = nth_error (R_est_history s) j.
Proof.
  induction ys as [|ynew ys IH]; intros k j s Hjk; [reflexivity|].
  cbn [loop].
  pose proof (loop_body_keeps_other k j ynew s ltac:(lia)) as Hb.
  destruct (loop_body m k ynew s) as [s1|s1]; cbn [andthen final] in *.
  - rewrite IH by lia. exact Hb.
  - exact Hb.
Qed.

End History.

(** Whatever happens later, a run on at least one measurement leaves the
    caller's prior [R_est] at index 0 of the history. *)
Lemma run_records_prior (F H Qw x0 P0 R0 L0 y0 : Q) (ys : list Q)
    (r : result) :
  run F H Qw x0 P0 R0 L0 (y0 :: ys) = Some r ->
  nth_error (R_est_history (final r)) 0 = Some R0.
Proof.
  unfold run, setup.
  destruct (precompute F H Qw) as [m|]; [|discriminate].
  intros [= <-]. cbn [length].
  set (s0 := initial x0 P0 R0 L0 (Datatypes.S (length ys))).
  destruct (after_noise_update m 0 y0 s0) as (h & _ & Hnth & Hrest);
    [cbn; lia|].
  change (andthen (record_R_est 0 s0)
            (fun s => andthen (state_update m y0 s) (remember y0)))
    with (loop_body m 0 y0 s0) in Hrest.
  change (loop m 0 (y0 :: ys) s0)
    with (andthen (loop_body m 0 y0 s0) (loop m 1 ys)).
  rewrite Hrest. clear Hrest.
  destruct (state_estimation m (R_est s0) y0 (x_post s0) (P_post s0))
    as [[x P]|]; cbn [andthen final].
  - rewrite loop_keeps_earlier by lia. exact Hnth.
  - exact Hnth.
Qed.

(** ** Construction *)

Lemma precompute_notebook : precompute (1 # 2) 2 4 = Some notebook_model.
Proof. reflexivity. Qed.

(** C9, as the code has it.  A model with [H = 0] does not get past the
    cells before the loop: the division [1/H] of line 76 has no value.
    The priors are never inspected: whether these cells succeed does not
    depend on them, and when the cells succeed the namespace holds the
    priors as given, whatever their sign. *)
Theorem priors_are_not_inspected (logspace : nat -> option (list Q))
    (F H Qw x0 P0 R0 L0 : Q) (T : nat) :
  (H == 0 ->
   cells_before_loop logspace F H Qw x0 P0 R0 L0 T = None /\
   setup F H Qw x0 P0 R0 L0 T = None) /\
  (forall x1 P1 R1 L1 : Q,
     (cells_before_loop logspace F H Qw x0 P0 R0 L0 T = None
      <-> cells_before_loop logspace F H Qw x1 P1 R1 L1 T = None) /\
     (setup F H Qw x0 P0 R0 L0 T = None
      <-> setup F H Qw x1 P1 R1 L1 T = None)) /\
  (forall (m : Sys.model) (print_k : list Q) (s : state),
     cells_before_loop logspace F H Qw x0 P0 R0 L0 T = Some (m, print_k, s) ->
     s = initial x0 P0 R0 L0 T /\
     setup F H Qw x0 P0 R0 L0 T = Some (m, s)) /\
  (forall (m : Sys.model) (s : state),
     setup F H Qw x0 P0 R0 L0 T = Some (m, s) ->
     s = initial x0 P0 R0 L0 T).
Proof.
  unfold cells_before_loop, setup. split; [|split; [|split]].
  - intros HH. unfold precompute.
    apply (pydiv_None 1 H) in HH. rewrite HH. split; reflexivity.
  - intros x1 P1 R1 L1.
    destruct (precompute F H Qw) as [m|]; [|split; tauto].
    destruct (logspace T) as [pk|]; split; split; try discriminate; tauto.
  - intros m pk s.
    destruct (precompute F H Qw) as [m'|]; [|discriminate].
    destruct (logspace T) as [pk'|]; [|discriminate].
    intros [= <- <- <-]. split; reflexivity.
  - intros m s. destruct (precompute F H Qw) as [m'|]; [|discriminate].
    now intros [= <- <-].
Qed.

(** C9, as worded, fails: the priors [R_est = -1] and [P_post = 100] with the
    notebook's [F, H, Q] are accepted. *)
Lemma construction_does_not_validate : ~ construction_validates.
Proof.
  intros Hv.
  destruct (Hv (1 # 2) 2 4 0 100 (-1) 0 3%nat) as [_ Hr].
  assert (Hprior : -1 <= 0 \/ 100 <= 0) by (left; discriminate).
  specialize (Hr Hprior). vm_compute in Hr. discriminate Hr.
Qed.

(** With the priors [R_est = -1], [P_post = -5] the loop runs to its end and
    records the negative estimate. *)
Example nonpositive_priors_run :
  option_map (fun r => (completed r, R_est (final r), R_est_history (final r)))
    (run (1 # 2) 2 4 0 (-5) (-1) 0 [1; 2; 3])
  = Some (true, -1, [-1; -1; -1]).
Proof. vm_compute. reflexivity. Qed.

(** With the priors [R_est = -16], [P_post = 0] the gain divisor of step 0 is
    zero: the loop stops there, after recording, not at construction. *)
Example nonpositive_priors_stop_in_loop :
  run (1 # 2) 2 4 0 0 (-16) 0 [1; 2; 3]
  = Some (Stopped (State None 0 0 (-16) 0 [-16; 0; 0])).
Proof. vm_compute. reflexivity. Qed.

(** ** Concrete steps of the notebook's model *)

(** Three measurements: the candidates of steps 1 and 2 are accepted. *)
Example notebook_run :
  option_map (fun r => (completed r, Qred (R_est (final r)),
                        map Qred (R_est_history (final r))))
    (notebook [1; 9; 3])
  = Some (true, 17, [100; 45; 17]).
Proof. vm_compute. reflexivity. Qed.

(** A rejected candidate: [R_est] stays, [L] moves from [0] to [9/16]. *)
Example rejection_scenario :
  noise_covariance_estimation notebook_model 1 2 1 0
  = Some (-3520 # 320, 9 # 16) /\
  noise_update notebook_model 1 2 after_first
  = Normal (State (Some 1) 0 100 100 (9 # 16) [100; 0; 0]).
Proof. split; vm_compute; reflexivity. Qed.

(** An accepted candidate. *)
Example acceptance_scenario :
  noise_update notebook_model 1 9 after_first
  = Normal (State (Some 1) 0 100 (14400 # 320) (289 # 16) [100; 0; 0]).
Proof. vm_compute. reflexivity. Qed.

(** ** Instances of the theorems *)

Lemma R_est_stays_positive_witness :
  0 < R_est (final (loop notebook_model 0 [1; 9; 3] (initial 0 100 100 0 3))).
Proof.
  refine (proj1 (R_est_stays_positive notebook_model 0 [1; 9; 3]
                   (initial 0 100 100 0 3) _)).
  reflexivity.
Defined.

Lemma running_mean_is_mean_witness :
  exists L',
    consecutive_calls notebook_model 1 [(9, 1); (3, 9)] 7 = Some L' /\
    L' == mean_squares notebook_model [(9, 1); (3, 9)] /\
    L' == spec_mean_squares (Sys.Mopi notebook_model) (1 # 2)
            [(9, 1); (3, 9)] /\
    L' == spec_mean_squares (1 / 2) (1 # 2) [(9, 1); (3, 9)].
Proof.
  refine (proj1 (running_mean_is_mean (1 # 2) 2 4 notebook_model
                   [(9, 1); (3, 9)] 7 _ _)).
  - reflexivity.
  - discriminate.
Defined.

Lemma noise_estimator_formulas_witness :
  exists cand L',
    noise_covariance_estimation notebook_model 1 2 1 0 = Some (cand, L') /\
    innovation notebook_model 2 1 == spec_Z (1 # 2) 2 2 1 /\
    L' == spec_running_mean 0 1 (spec_Z (1 # 2) 2 2 1) /\
    cand == (L' - Sys.CW notebook_model) / Sys.S notebook_model /\
    cand == (L' - 4) / ((- (1 # 2) * (1 / 2)) ^ 2 + (1 / 2) ^ 2).
Proof.
  refine (proj2 (noise_estimator_formulas (1 # 2) 2 4 notebook_model 1
                   2 1 0 _ _)).
  - reflexivity.
  - discriminate.
Defined.

Lemma state_estimation_formulas_witness :
  exists x' P',
    state_estimation notebook_model 100 1 0 100 = Some (x', P') /\
    x' == spec_x_post notebook_model
            (spec_gain notebook_model 100 (spec_P_pre notebook_model 100)) 1
            (Sys.F notebook_model * 0) /\
    P' == spec_joseph notebook_model 100
            (spec_gain notebook_model 100 (spec_P_pre notebook_model 100))
            (spec_P_pre notebook_model 100).
Proof.
  apply (state_estimation_formulas notebook_model 100 1 0 100).
  intros E. vm_compute in E. discriminate E.
Defined.

Lemma P_post_nonneg_witness :
  exists x' P',
    state_estimation notebook_model 100 1 0 100 = Some (x', P') /\ 0 <= P'.
Proof.
  refine (proj1 (P_post_nonneg notebook_model 100 1 0 100 _ _ _)).
  - discriminate.
  - discriminate.
  - reflexivity.
Defined.

Lemma L_updated_on_every_call_witness :
  exists s1,
    noise_update notebook_model 1 2 after_first = Normal s1 /\
    L s1 = 9 # 16 /\
    L (final (loop_body notebook_model 1 2 after_first)) = 9 # 16 /\
    (0 < -3520 # 320 -> R_est s1 = -3520 # 320) /\
    (-3520 # 320 <= 0 ->
     R_est s1 = R_est after_first /\
     R_est (final (loop_body notebook_model 1 2 after_first))
     = R_est after_first) /\
    yold s1 = yold after_first /\ x_post s1 = x_post after_first /\
    P_post s1 = P_post after_first /\
    R_est_history s1 = R_est_history after_first.
Proof.
  apply (L_updated_on_every_call notebook_model 1 2 1 (-3520 # 320) (9 # 16)
           after_first).
  - apply Nat.lt_0_1.
  - reflexivity.
  - vm_compute. reflexivity.
Defined.

Lemma joseph_is_simplified_witness :
  spec_joseph notebook_model 100 (spec_gain notebook_model 100 29) 29
  == spec_simplified notebook_model (spec_gain notebook_model 100 29) 29.
Proof.
  refine (proj1 (joseph_is_simplified notebook_model 100 29 _)).
  intros E. vm_compute in E. discriminate E.
Defined.


(** * Further properties of the notebook's code *)

(** ** The noise estimator: failure, acceptance threshold, inversion *)

Lemma noise_estimation_inv (F H Qw : Q) (m : Sys.model) (k : Z)
    (y_new y_old L0 cand L' : Q) :
  precompute F H Qw = Some m ->
  noise_covariance_estimation m k y_new y_old L0 = Some (cand, L') ->
  0 < Sys.S m /\ Sys.CW m == Qw /\ cand = (L' - Sys.CW m) / Sys.S m.
Proof.
  intros Hm Hn. pose proof (precompute_S_pos _ _ _ _ Hm) as HS.
  split; [exact HS|]. split.
  - apply precompute_inv in Hm. destruct Hm as [_ ->]. cbn. ring.
  - unfold noise_covariance_estimation in Hn.
    destruct (pydiv (L0 * inject_Z (k - 1)) (inject_Z k)) as [a|];
      [|discriminate].
    destruct (pydiv _ (inject_Z k)) as [b|]; [|discriminate].
    destruct (pydiv (a + b - Sys.CW m) (Sys.S m)) as [c|] eqn:Ec;
      [|discriminate].
    injection Hn as <- <-. apply pydiv_Some_inv in Ec. apply Ec.
Qed.

(** X2.  The candidate a call returns is positive, hence accepted by line 160,
    exactly when the updated running mean [L] exceeds the process-noise
    variance [Q]. *)
Theorem candidate_positive_iff (F H Qw : Q) (m : Sys.model) (k : Z)
    (y_new y_old L0 cand L' : Q) :
  precompute F H Qw = Some m ->
  noise_covariance_estimation m k y_new y_old L0 = Some (cand, L') ->
  (0 < cand <-> Qw < L').
Proof.
  intros Hm Hn.
  destruct (noise_estimation_inv _ _ _ _ _ _ _ _ _ _ Hm Hn)
    as (HS & HCW & ->).
  assert (E : (L' - Sys.CW m) / Sys.S m * Sys.S m == L' - Qw)
    by (rewrite <- HCW; field; lra).
  split; intros Hc.
  - assert (0 < (L' - Sys.CW m) / Sys.S m * Sys.S m) by nra. lra.
  - apply Qlt_shift_div_l; [exact HS|]. lra.
Qed.

Lemma candidate_positive_iff_witness :
  0 < 14400 # 320 <-> 4 < 289 # 16.
Proof.
  apply (candidate_positive_iff (1 # 2) 2 4 notebook_model 1 9 1 0
           (14400 # 320) (289 # 16)).
  - reflexivity.
  - vm_compute. reflexivity.
Defined.

(** X3.  The candidate inverts the relation [L = S R + Q] between the mean
    squared innovation and the noise variance: [S cand + Q] is the updated
    [L], so a running mean that equals [S R + Q] returns exactly [R]. *)
Theorem candidate_inverts_relation (F H Qw : Q) (m : Sys.model) (k : Z)
    (y_new y_old L0 cand L' : Q) :
  precompute F H Qw = Some m ->
  noise_covariance_estimation m k y_new y_old L0 = Some (cand, L') ->
  Sys.S m * cand + Qw == L' /\
  (forall R : Q, L' == Sys.S m * R + Qw -> cand == R).
Proof.
  intros Hm Hn.
  destruct (noise_estimation_inv _ _ _ _ _ _ _ _ _ _ Hm Hn)
    as (HS & HCW & ->).
  split.
  - rewrite <- HCW. field. lra.
  - intros R HR. rewrite HR, HCW. field. lra.
Qed.

Lemma candidate_inverts_relation_witness :
  Sys.S notebook_model * (14400 # 320) + 4 == 289 # 16.
Proof.
  refine (proj1 (candidate_inverts_relation (1 # 2) 2 4 notebook_model 1
                   9 1 0 (14400 # 320) (289 # 16) _ _)).
  - reflexivity.
  - vm_compute. reflexivity.
Defined.

(** ** The state estimator: failure, variance bounds, residual *)

Section StateEstimatorFurther.

Variable m : Sys.model.

Lemma blending_weight (R_est P_pre : Q) :
  0 <= P_pre -> 0 < R_est ->
  let K := P_pre * Sys.H m / (Sys.H m * P_pre * Sys.H m + R_est) in
  1 - K * Sys.H m == R_est / (Sys.H m * P_pre * Sys.H m + R_est) /\
  0 < 1 - K * Sys.H m /\ 1 - K * Sys.H m <= 1.
Proof.
  intros HP HR K.
  pose proof (gain_divisor_pos m R_est P_pre HP HR) as Hpos.
  assert (E : 1 - K * Sys.H m
              == R_est / (Sys.H m * P_pre * Sys.H m + R_est)).
  { unfold K. field. lra. }
  set (D := Sys.H m * P_pre * Sys.H m + R_est) in *.
  split; [exact E|]. rewrite E. split.
  - apply Qlt_shift_div_l; lra.
  - apply Qle_shift_div_r; [exact Hpos|].
    assert (0 <= P_pre * (Sys.H m * Sys.H m))
      by (apply Qmult_le_0_compat; nra).
    unfold D. lra.
Qed.

(** X6.  The measurement residual shrinks: [ynew - H x_post] is the prior
    residual [ynew - H x_pre] scaled by [1 - K H], so, under the same
    conditions, it is no larger in absolute value. *)
Theorem residual_contracts (R_est ynew x_post_prev P_post_prev : Q) :
  0 <= P_post_prev -> 0 <= Sys.Q m -> 0 < R_est ->
  exists x' P',
    state_estimation m R_est ynew x_post_prev P_post_prev = Some (x', P') /\
    Qabs (ynew - Sys.H m * x')
    <= Qabs (ynew - Sys.H m * (Sys.F m * x_post_prev)).
Proof.
  intros HP HQ HR.
  pose proof (predicted_variance_nonneg m P_post_prev HP HQ) as Hpre.
  set (P_pre := predicted_variance m P_post_prev) in *.
  pose proof (gain_divisor_pos m R_est P_pre Hpre HR) as Hpos.
  destruct (blending_weight R_est P_pre Hpre HR) as (_ & Hw0 & Hw1).
  cbv zeta in Hw0, Hw1.
  unfold state_estimation. fold P_pre.
  rewrite kalman_gain_defined by lra.
  set (K := P_pre * Sys.H m / (Sys.H m * P_pre * Sys.H m + R_est)) in *.
  set (x_pre := Sys.F m * x_post_prev).
  do 2 eexists. split; [reflexivity|].
  assert (E : ynew - Sys.H m * (x_pre + K * (ynew - Sys.H m * x_pre))
              == (1 - K * Sys.H m) * (ynew - Sys.H m * x_pre)) by ring.
  rewrite E, Qabs_Qmult, (Qabs_pos (1 - K * Sys.H m)) by lra.
  pose proof (Qabs_nonneg (ynew - Sys.H m * x_pre)) as Ha.
  assert (0 <= (1 - (1 - K * Sys.H m)) * Qabs (ynew - Sys.H m * x_pre))
    by (apply Qmult_le_0_compat; lra).
  lra.
Qed.

End StateEstimatorFurther.

Lemma residual_contracts_witness :
  exists x' P',
    state_estimation notebook_model 100 1 0 100 = Some (x', P') /\
    Qabs (1 - Sys.H notebook_model * x')
    <= Qabs (1 - Sys.H notebook_model * (Sys.F notebook_model * 0)).
Proof.
  apply (residual_contracts notebook_model 100 1 0 100).
  - discriminate.
  - discriminate.
  - reflexivity.
Defined.

(** ** The loop: composition, history, independence *)

Section LoopFurther.

Variable m : Sys.model.

Lemma setitem_written (a : list Q) (k : nat) (v : Q) (h : list Q) :
  setitem a k v = Some h ->
  nth_error h k = Some v /\ length h = length a.
Proof.
  revert k h. induction a as [|x a IH]; intros k h Hs; [discriminate|].
  destruct k as [|k]; cbn in Hs.
  - injection Hs as <-. split; reflexivity.
  - destruct (setitem a k v) as [t|] eqn:E; [|discriminate].
    injection Hs as <-. destruct (IH k t E) as [Hn Hl].
    split; [exact Hn|cbn; now rewrite Hl].
Qed.

Lemma loop_body_written (k : nat) (ynew : Q) (s s' : state) :
  loop_body m k ynew s = Normal s' ->
  nth_error (R_est_history s') k = Some (R_est s') /\
  length (R_est_history s') = length (R_est_history s).
Proof.
  rewrite loop_body_cases.
  pose proof (noise_update_frame m k ynew s) as (_ & _ & _ & Hh).
  destruct (noise_update m k ynew s) as [s1|s1]; [|discriminate].
  cbn [final] in Hh. rewrite <- Hh. clear Hh.
  unfold record_R_est.
  destruct (setitem (R_est_history s1) k (R_est s1)) as [h|] eqn:E;
    [|discriminate].
  destruct (setitem_written _ _ _ _ E) as [Hn Hl].
  unfold state_update. cbn [R_est x_post P_post set_history].
  destruct (state_estimation _ _ _ _ _) as [[x P]|]; [|discriminate].
  intros [= <-]. cbn. split; assumption.
Qed.

Lemma loop_Normal_cons (k : nat) (y : Q) (ys : list Q) (s s' : state) :
  loop m k (y :: ys) s = Normal s' ->
  exists s1,
    loop_body m k y s = Normal s1 /\ loop m (Datatypes.S k) ys s1 = Normal s'.
Proof.
  cbn [loop]. destruct (loop_body m k y s) as [s1|s1]; [|discriminate].
  intros Hl. exists s1. split; [reflexivity|exact Hl].
Qed.

Lemma loop_written (ys : list Q) :
  forall (k : nat) (s s' : state),
    loop m k ys s = Normal s' -> 0 < R_est s ->
    length (R_est_history s') = length (R_est_history s) /\
    forall i : nat, (k <= i < k + length ys)%nat ->
      exists r, nth_error (R_est_history s') i = Some r /\ 0 < r.
Proof.
  induction ys as [|y ys IH]; intros k s s' Hl Hpos.
  - injection Hl as <-. split; [reflexivity|]. cbn. intros i Hi. lia.
  - destruct (loop_Normal_cons k y ys s s' Hl) as (s1 & Hb & Hl1).
    destruct (loop_body_written k y s s1 Hb) as [Hk Hlen].
    pose proof (loop_body_positive m k y s Hpos) as Hpos1.
    rewrite Hb in Hpos1. cbn [final] in Hpos1.
    destruct (IH (Datatypes.S k) s1 s' Hl1 Hpos1) as [Hlen' Hall].
    split; [now rewrite Hlen', Hlen|].
    intros i Hi. cbn [length] in Hi.
    destruct (Nat.eq_dec i k) as [->|Hne].
    + exists (R_est s1). split; [|exact Hpos1].
      pose proof (loop_keeps_earlier m ys (Datatypes.S k) k s1
                    ltac:(lia)) as Hkeep.
      rewrite Hl1 in Hkeep. cbn [final] in Hkeep. now rewrite Hkeep.
    + apply Hall. lia.
Qed.

(** X8.  After a completed loop on at least one measurement, the entry of the
    history written last is the final [R_est], and [yold] holds the last
    measurement. *)
Theorem loop_last_entry (ys : list Q) (y : Q) (k : nat) (s s' : state) :
  loop m k (ys ++ [y]) s = Normal s' ->
  nth_error (R_est_history s') (k + length ys) = Some (R_est s') /\
  yold s' = Some y.
Proof.
  revert k s. induction ys as [|a ys IH]; intros k s Hl.
  - cbn [app] in Hl.
    destruct (loop_Normal_cons k y [] s s' Hl) as (s1 & Hb & Hl1).
    injection Hl1 as <-. cbn [length]. rewrite Nat.add_0_r.
    split; [apply (loop_body_written k y s s1 Hb)|].
    exact (loop_body_yold m k y s s1 Hb).
  - cbn [app] in Hl.
    destruct (loop_Normal_cons k a (ys ++ [y]) s s' Hl) as (s1 & _ & Hl1).
    cbn [length]. rewrite Nat.add_succ_r. exact (IH (Datatypes.S k) s1 Hl1).
Qed.

Lemma loop_body_Normal_inv (k : nat) (y : Q) (s s' : state) :
  loop_body m k y s = Normal s' ->
  exists s1 h,
    noise_update m k y s = Normal s1 /\
    setitem (R_est_history s1) k (R_est s1) = Some h /\
    yold s' = Some y /\ R_est s' = R_est s1 /\ L s' = L s1 /\
    R_est_history s' = h.
Proof.
  rewrite loop_body_cases.
  destruct (noise_update m k y s) as [s1|s1]; [|discriminate].
  unfold record_R_est.
  destruct (setitem (R_est_history s1) k (R_est s1)) as [h|] eqn:E;
    [|discriminate].
  unfold state_update. cbn [R_est x_post P_post set_history].
  destruct (state_estimation _ _ _ _ _) as [[x P]|]; [|discriminate].
  intros [= <-]. exists s1, h. cbn. repeat split. exact E.
Qed.

Lemma noise_update_noise_side (k : nat) (y : Q) (s t s1 t1 : state) :
  same_noise_side s t ->
  noise_update m k y s = Normal s1 -> noise_update m k y t = Normal t1 ->
  same_noise_side s1 t1.
Proof.
  intros (Hy & HR & HL & Hh). unfold noise_update.
  rewrite <- Hy, <- HL.
  destruct (0 <? k)%nat.
  - destruct (yold s) as [y_old|] eqn:Ey; [|discriminate].
    destruct (noise_covariance_estimation m (Z.of_nat k) y y_old (L s))
      as [[c L']|]; [|discriminate].
    destruct (Qgt_bool c 0); intros [= <-] [= <-];
      unfold same_noise_side; cbn; repeat split; congruence.
  - intros [= <-] [= <-]. unfold same_noise_side. repeat split; congruence.
Qed.

(** X9.  The noise estimator never reads the state estimate: two completed
    loops on the same measurements, from namespaces that differ in
    [x_post] and [P_post] only, end with the same [yold], [R_est], [L] and
    history. *)
Theorem noise_side_independent (ys : list Q) (k : nat) (s t s' t' : state) :
  same_noise_side s t ->
  loop m k ys s = Normal s' -> loop m k ys t = Normal t' ->
  same_noise_side s' t'.
Proof.
  revert k s t. induction ys as [|y ys IH]; intros k s t Hst Hs Ht.
  - injection Hs as <-. injection Ht as <-. exact Hst.
  - destruct (loop_Normal_cons k y ys s s' Hs) as (s1 & Hbs & Hls).
    destruct (loop_Normal_cons k y ys t t' Ht) as (t1 & Hbt & Hlt).
    apply (IH (Datatypes.S k) s1 t1); [|exact Hls|exact Hlt].
    destruct (loop_body_Normal_inv k y s s1 Hbs)
      as (s2 & hs & Hns & Hss & Hys & HRs & HLs & Hhs).
    destruct (loop_body_Normal_inv k y t t1 Hbt)
      as (t2 & ht & Hnt & Hst' & Hyt & HRt & HLt & Hht).
    destruct (noise_update_noise_side k y s t s2 t2 Hst Hns Hnt)
      as (_ & HR2 & HL2 & Hh2).
    rewrite <- HR2, <- Hh2, Hss in Hst'. injection Hst' as <-.
    unfold same_noise_side. repeat split; congruence.
Qed.

End LoopFurther.

(** X10.  A completed run of the notebook from a positive prior [R_est] has
    overwritten every entry of the history ([len(ys)] of them) with a
    positive estimate: no [0] of [np.zeros(T)] is left. *)
Theorem run_history_positive (F H Qw x0 P0 R0 L0 : Q) (ys : list Q)
    (s : state) :
  0 < R0 ->
  run F H Qw x0 P0 R0 L0 ys = Some (Normal s) ->
  length (R_est_history s) = length ys /\
  Forall (fun r => 0 < r) (R_est_history s).
Proof.
  intros HR. unfold run, setup.
  destruct (precompute F H Qw) as [m|]; [|discriminate].
  intros [= Hl].
  destruct (loop_written m ys 0 _ s Hl HR) as [Hlen Hall].
  unfold initial in Hlen. cbn [R_est_history] in Hlen.
  rewrite repeat_length in Hlen.
  split; [exact Hlen|].
  apply Forall_forall. intros r Hin.
  destruct (In_nth_error _ _ Hin) as [i Hi].
  assert (Hlt : (i < length (R_est_history s))%nat)
    by (apply nth_error_Some; congruence).
  destruct (Hall i) as (r' & Hi' & Hpos); [lia|].
  rewrite Hi in Hi'. injection Hi' as <-. exact Hpos.
Qed.

(** ** The loop with the plant in place *)

Lemma sim_body_loop_body (m : Sys.model) (k : nat) (w v x : Q) (s : state) :
  snd (sim_body m k (w, v) x s) = loop_body m k (plant_measure m x v) s /\
  fst (sim_body m k (w, v) x s)
  = if completed (loop_body m k (plant_measure m x v) s)
    then plant_advance m x w else x.
Proof.
  unfold sim_body, loop_body.
  destruct (noise_update m k (plant_measure m x v) s) as [s1|s1];
    cbn [andthen]; [|split; reflexivity].
  destruct (record_R_est k s1) as [s2|s2]; cbn [andthen];
    [|split; reflexivity].
  destruct (state_update m (plant_measure m x v) s2) as [s3|s3];
    split; reflexivity.
Qed.

(** X11.  The filter never feeds back into the plant: the loop with the plant in
    place ends as the loop on the measurements the plant produces by
    itself, and, when it completes, the true state is where the plant ends
    by itself. *)
Theorem simulate_is_loop (m : Sys.model) (noise : list (Q * Q)) (k : nat)
    (x : Q) (s : state) :
  snd (simulate m k x noise s) = loop m k (measurements m x noise) s /\
  (completed (snd (simulate m k x noise s)) = true ->
   fst (simulate m k x noise s) = plant_end m x noise).
Proof.
  revert k x s. induction noise as [|[w v] rest IH]; intros k x s.
  - split; reflexivity.
  - cbn [simulate measurements plant_end loop].
    destruct (sim_body_loop_body m k w v x s) as [Hsnd Hfst].
    destruct (sim_body m k (w, v) x s) as [x' r]. cbn [fst snd] in *.
    subst r. destruct (loop_body m k (plant_measure m x v) s) as [s1|s1];
      cbn [completed andthen] in *.
    + subst x'. apply IH.
    + split; [reflexivity|discriminate].
Qed.

(** X12.  On two consecutive measurements of the plant the scaled innovation of
    line 109 does not depend on the true state: it is
    [A1 w + B1 v_prev + B2 v_new], the combination of the noise samples
    whose coefficients lines 77-79 precompute. *)
Theorem plant_innovation (F H Qw : Q) (m : Sys.model)
    (x w v_prev v_new : Q) :
  precompute F H Qw = Some m ->
  innovation m (plant_measure m (plant_advance m x w) v_new)
    (plant_measure m x v_prev)
  == Sys.A1 m * w + Sys.B1 m * v_prev + Sys.B2 m * v_new.
Proof.
  intros Hm. apply precompute_inv in Hm. destruct Hm as [Hn ->].
  unfold innovation, plant_measure, plant_advance. cbn. field. exact Hn.
Qed.

(** ** The sign of the running mean *)

Section Stops.

Variable m : Sys.model.

Lemma noise_update_L_nonneg (k : nat) (y : Q) (s : state) :
  0 <= L s -> 0 <= L (final (noise_update m k y s)).
Proof.
  intros HL. unfold noise_update.
  destruct (0 <? k)%nat eqn:Ek; [|exact HL].
  apply Nat.ltb_lt in Ek.
  destruct (yold s) as [y_old|]; [|exact HL].
  unfold noise_covariance_estimation.
  destruct (pydiv (L s * inject_Z (Z.of_nat k - 1)) (inject_Z (Z.of_nat k)))
    as [a|] eqn:Ea; [|exact HL].
  destruct (pydiv (innovation m y y_old * innovation m y y_old)
              (inject_Z (Z.of_nat k))) as [b|] eqn:Eb; [|exact HL].
  destruct (pydiv (a + b - Sys.CW m) (Sys.S m)) as [c|]; [|exact HL].
  assert (Hab : 0 <= a + b).
  { apply pydiv_Some_inv in Ea. apply pydiv_Some_inv in Eb.
    destruct Ea as [_ ->]. destruct Eb as [_ ->].
    pose proof (inject_Z_pos (Z.of_nat k) ltac:(lia)) as Hk.
    assert (Hk1 : 0 <= inject_Z (Z.of_nat k - 1)).
    { change 0 with (inject_Z 0). rewrite <- Zle_Qle. lia. }
    set (z := innovation m y y_old).
    assert (0 <= L s * inject_Z (Z.of_nat k - 1))
      by (apply Qmult_le_0_compat; assumption).
    assert (0 <= z * z) by nra.
    assert (0 <= L s * inject_Z (Z.of_nat k - 1) / inject_Z (Z.of_nat k))
      by (apply Qle_shift_div_l; lra).
    assert (0 <= z * z / inject_Z (Z.of_nat k))
      by (apply Qle_shift_div_l; lra).
    lra. }
  destruct (Qgt_bool c 0); exact Hab.
Qed.

(** X13.  The running mean never turns negative: from [L >= 0] the loop leaves
    [L >= 0] wherever it stops, whatever the constants and measurements. *)
Theorem running_mean_nonneg (ys : list Q) (k : nat) (s : state) :
  0 <= L s -> 0 <= L (final (loop m k ys s)).
Proof.
  revert k s. induction ys as [|y ys IH]; intros k s HL; [exact HL|].
  cbn [loop].
  pose proof (noise_update_L_nonneg k y s HL) as HL1.
  rewrite <- loop_body_L in HL1.
  destruct (loop_body m k y s) as [s1|s1]; cbn [andthen final] in *.
  - now apply IH.
  - exact HL1.
Qed.

End Stops.

(** ** Instances of the further theorems *)

Lemma run_history_positive_witness :
  Forall (fun r => 0 < r)
    (R_est_history
       (final (loop notebook_model 0 [1; 9; 3] (initial 0 100 100 0 3)))).
Proof.
  refine (proj2 (run_history_positive (1 # 2) 2 4 0 100 100 0 [1; 9; 3]
                   _ _ _)).
  - reflexivity.
  - vm_compute. reflexivity.
Defined.

Lemma loop_last_entry_witness :
  nth_error
    (R_est_history
       (final (loop notebook_model 0 [1; 9; 3] (initial 0 100 100 0 3)))) 2
  = Some (R_est
       (final (loop notebook_model 0 [1; 9; 3] (initial 0 100 100 0 3)))) /\
  yold (final (loop notebook_model 0 [1; 9; 3] (initial 0 100 100 0 3)))
  = Some 3.
Proof.
  apply (loop_last_entry notebook_model [1; 9] 3 0 (initial 0 100 100 0 3)).
  vm_compute. reflexivity.
Defined.

Lemma noise_side_independent_witness :
  same_noise_side
    (final (loop notebook_model 0 [1; 9; 3] (initial 0 100 100 0 3)))
    (final (loop notebook_model 0 [1; 9; 3] (initial 5 7 100 0 3))).
Proof.
  apply (noise_side_independent notebook_model [1; 9; 3] 0
           (initial 0 100 100 0 3) (initial 5 7 100 0 3)).
  - unfold same_noise_side. cbn. repeat split.
  - vm_compute. reflexivity.
  - vm_compute. reflexivity.
Defined.

Lemma plant_innovation_witness :
  innovation notebook_model
    (plant_measure notebook_model (plant_advance notebook_model 3 1) 5)
    (plant_measure notebook_model 3 2)
  == Sys.A1 notebook_model * 1 + Sys.B1 notebook_model * 2
     + Sys.B2 notebook_model * 5.
Proof.
  apply (plant_innovation (1 # 2) 2 4 notebook_model 3 1 2 5).
  reflexivity.
Defined.


Lemma running_mean_nonneg_witness :
  0 <= L (final (loop notebook_model 0 [1; 9; 3] (initial 0 100 100 0 3))).
Proof.
  apply (running_mean_nonneg notebook_model [1; 9; 3] 0
           (initial 0 100 100 0 3)).
  discriminate.
Defined.


(** * The state estimator on binary64 numbers *)

Section Binary64Signs.

Import Binary64.

Lemma round_class (s : bool) (m e : Z) (l : location) :
  In (class_of (binary_round_aux prec emax s m e l)) [signed s; Czero; Cnan].
Proof.
  unfold binary_round_aux.
  destruct (shr_fexp prec emax m e l) as [mrs' e'].
  destruct (shr_fexp prec emax _ e' loc_Exact) as [mrs'' e''].
  destruct (shr_m mrs'') as [|p|p]; cbn.
  - right. now left.
  - destruct (Z.leb _ _); cbn; left; reflexivity.
  - right. right. now left.
Qed.

Lemma normalize_class (z e : Z) :
  In (class_of (binary_normalize prec emax z e false))
    match z with
    | Z0 => [Czero]
    | Zpos _ => [Cpos; Czero; Cnan]
    | Zneg _ => [Cneg; Czero; Cnan]
    end.
Proof.
  unfold binary_normalize, binary_round.
  destruct z as [|p|p].
  - now left.
  - destruct (shl_align _ _ _) as [mz ez].
    exact (round_class false (Z.pos mz) ez loc_Exact).
  - destruct (shl_align _ _ _) as [mz ez].
    exact (round_class true (Z.pos mz) ez loc_Exact).
Qed.

Lemma class_mul_sound (x y : spec_float) :
  In (class_of (SF64mul x y)) (class_mul (class_of x) (class_of y)).
Proof.
  unfold SF64mul, SFmul.
  destruct x as [sx|sx| |sx mx ex], y as [sy|sy| |sy my ey];
    try (destruct sx, sy; cbn; tauto); try (destruct sx; cbn; tauto);
    try (destruct sy; cbn; tauto); try (cbn; tauto).
  pose proof (round_class (xorb sx sy) (Z.pos (mx * my)) (ex + ey) loc_Exact)
    as Hr.
  destruct sx, sy; cbn in *; tauto.
Qed.

Lemma class_add_sound (x y : spec_float) :
  In (class_of (SF64add x y)) (class_add (class_of x) (class_of y)).
Proof.
  unfold SF64add, SFadd.
  destruct x as [sx|sx| |sx mx ex], y as [sy|sy| |sy my ey];
    try (destruct sx, sy; cbn; tauto); try (destruct sx; cbn; tauto);
    try (destruct sy; cbn; tauto); try (cbn; tauto).
  cbv zeta.
  set (a := fst (shl_align mx ex (Z.min ex ey))).
  set (b := fst (shl_align my ey (Z.min ex ey))).
  pose proof (normalize_class
                (cond_Zopp sx (Z.pos a) + cond_Zopp sy (Z.pos b))
                (Z.min ex ey)) as Hn.
  destruct sx, sy; cbn [cond_Zopp Z.opp class_of class_add] in *.
  - exact Hn.
  - destruct (Z.neg a + Z.pos b)%Z; cbn in *; tauto.
  - destruct (Z.pos a + Z.neg b)%Z; cbn in *; tauto.
  - exact Hn.
Qed.

Lemma float_class_mul (x y : float) :
  In (float_class (x * y)) (class_mul (float_class x) (float_class y)).
Proof. unfold float_class. rewrite mul_spec. apply class_mul_sound. Qed.

Lemma float_class_add (x y : float) :
  In (float_class (x + y)) (class_add (float_class x) (float_class y)).
Proof. unfold float_class. rewrite add_spec. apply class_add_sound. Qed.

Lemma SFcompare_refl (x : spec_float) :
  x <> S754_nan -> SFcompare x x = Some Eq.
Proof.
  destruct x as [s|s| |s m e]; intros Hn; try contradiction.
  - reflexivity.
  - destruct s; reflexivity.
  - cbn. rewrite Z.compare_refl, Pos.compare_cont_refl.
    destruct s; reflexivity.
Qed.

Lemma nonneg_or_nan_class (x : float) :
  nonneg_or_nan x = class_ok (float_class x).
Proof.
  unfold nonneg_or_nan, is_nan, float_class.
  rewrite eqb_spec, leb_spec.
  change (Prim2SF 0) with (S754_zero false).
  unfold SFeqb, SFleb.
  destruct (Prim2SF x) as [s|s| |s m e] eqn:E.
  - reflexivity.
  - destruct s; reflexivity.
  - reflexivity.
  - rewrite SFcompare_refl by discriminate. destruct s; reflexivity.
Qed.

(** [a * p * a] has the sign of [p], when it has one. *)
Lemma sandwich_class (a p : float) :
  class_ok (float_class p) = true ->
  class_ok (float_class (a * p * a)) = true.
Proof.
  intros Hp.
  pose proof (float_class_mul a p) as H1.
  pose proof (float_class_mul (a * p) a) as H2.
  destruct (float_class a), (float_class p), (float_class (a * p));
    try discriminate Hp; cbn in H1; cbn in H2;
    destruct (float_class (a * p * a)); try reflexivity; cbn in *;
    intuition discriminate.
Qed.

Lemma sum_class (x y : float) :
  class_ok (float_class x) = true -> class_ok (float_class y) = true ->
  class_ok (float_class (x + y)) = true.
Proof.
  intros Hx Hy. pose proof (float_class_add x y) as Hs.
  destruct (float_class x), (float_class y); try discriminate;
    destruct (float_class (x + y)); try reflexivity; cbn in *;
    intuition discriminate.
Qed.

End Binary64Signs.

(** C5, as the code has it.  On binary64 numbers the variance never turns
    negative: when [P_post], [Q] and [R_est] are each [>= 0] or [nan] (so in
    particular for [P_post >= 0], [Q >= 0], [R_est > 0]), the [P_post] that
    [state_estimation] returns is again [>= 0] or [nan], whatever [F], [H],
    the measurement and [x_post] are.  With numpy scalars the call always
    returns; with Python numbers it returns the same pair, or raises when
    the gain divisor is zero. *)
Theorem P_post_nonneg_or_nan (F H Qv R_est ynew x_post P_post : float) :
  Binary64.nonneg_or_nan P_post = true ->
  Binary64.nonneg_or_nan Qv = true ->
  Binary64.nonneg_or_nan R_est = true ->
  exists x' P',
    Binary64.state_estimation Binary64.NumpyScalars F H Qv R_est ynew
      x_post P_post = Some (x', P') /\
    Binary64.nonneg_or_nan P' = true /\
    (Binary64.state_estimation Binary64.PythonNumbers F H Qv R_est ynew
       x_post P_post = Some (x', P') \/
     Binary64.state_estimation Binary64.PythonNumbers F H Qv R_est ynew
       x_post P_post = None /\
     (H * (F * P_post * F + Qv) * H + R_est =? 0)%float = true).
Proof.
  rewrite !nonneg_or_nan_class. intros HP HQ HR.
  unfold Binary64.state_estimation, Binary64.kalman_gain, Binary64.divide.
  set (P_pre := (F * P_post * F + Qv)%float).
  set (D := (H * P_pre * H + R_est)%float).
  do 2 eexists. split; [reflexivity|]. split.
  - rewrite nonneg_or_nan_class.
    assert (Hpre : Binary64.class_ok (Binary64.float_class P_pre) = true).
    { apply sum_class; [now apply sandwich_class|exact HQ]. }
    apply sum_class; now apply sandwich_class.
  - destruct (D =? 0)%float eqn:ED; [right; now split|left; reflexivity].
Qed.

(** C5, as worded, fails on the code's numbers: with [F, H, Q = 1, 2, 0],
    [R_est = 1] and [P_post = 2^1023] the products of line 127 overflow,
    the gain is [inf / inf] and the returned [P_post] is [nan], which is not
    [>= 0]. *)
Lemma variance_can_be_nan : ~ Binary64.variance_stays_nonneg.
Proof.
  intros Hc.
  specialize (Hc Binary64.PythonNumbers 1 2 0 1 0 0 0x1p1023 nan nan
                eq_refl eq_refl eq_refl eq_refl)%float.
  vm_compute in Hc. discriminate Hc.
Qed.


(** The notebook's first call: [F, H, Q = 0.5, 2, 4], priors [100], [100],
    measurement [1]. *)
Lemma P_post_nonneg_or_nan_witness :
  exists x' P',
    Binary64.state_estimation Binary64.NumpyScalars 0.5 2 4 100 1 0 100
    = Some (x', P') /\
    Binary64.nonneg_or_nan P' = true /\
    (Binary64.state_estimation Binary64.PythonNumbers 0.5 2 4 100 1 0 100
     = Some (x', P') \/
     Binary64.state_estimation Binary64.PythonNumbers 0.5 2 4 100 1 0 100
     = None /\
     (2 * (0.5 * 100 * 0.5 + 4) * 2 + 100 =? 0)%float = true).
Proof.
  apply (P_post_nonneg_or_nan 0.5 2 4 100 1 0 100); reflexivity.
Defined.

(** The same call, evaluated: the correction leaves a variance of about
    [13.4]. *)
Example binary64_first_call :
  Binary64.state_estimation Binary64.PythonNumbers 0.5 2 4 100 1 0 100
  = Some (0x1.12f684bda12f7p-2, 0x1.ada12f684bda1p+3)%float.
Proof. vm_compute. reflexivity. Qed.
